(** * Blood-pressure simulator: data generator and storage manager

    A shallow embedding of the two library modules of the simulator (the
    data generator and the storage manager, with the shared type
    declarations), of the category function of the display and of the
    event handlers of the page that work on a generated dataset, and the
    properties proved about them.

    JavaScript numbers that the program handles are integers (cursor
    positions, pressures, epoch milliseconds); they are embedded as [Z].
    The embedding is exact on the safe-integer range |n| <= 2^53; rounding
    to IEEE doubles beyond that range is not modelled.  Strings are
    sequences of UTF-16 code units. *)

From Stdlib Require Import ZArith NArith QArith Qround Lia List String Ascii.
From stdpp Require Import base option list gmap.

Local Open Scope Z_scope.

(** ** Host language values *)

(** A JavaScript string: its UTF-16 code units. *)
Definition JsString : Type := list N.

(** String literals of the source, as code units. *)
Definition jsstr (s : string) : JsString :=
  List.map N_of_ascii (list_ascii_of_string s).
Arguments jsstr : simpl never.

(** A reference that may be [null] or [undefined]. *)
Inductive Nullable (T : Type) : Type :=
  | null : Nullable T
  | undefined : Nullable T
  | obj (x : T) : Nullable T.
Arguments null {T}.
Arguments undefined {T}.
Arguments obj {T} x.

(** [arr[n]] for a number [n] holding an integer: [undefined] outside
    [0 .. length-1]. *)
Definition index {T} (arr : list T) (n : Z) : Nullable T :=
  if n <? 0 then undefined
  else match arr !! Z.to_nat n with
       | Some x => obj x
       | None => undefined
       end.

(** Decimal digits of a natural number, most significant first; the loop
    runs at most [fuel] times. *)
Fixpoint digits_fuel (fuel : nat) (n : N) (acc : JsString) : JsString :=
  match fuel with
  | O => acc
  | S fuel' =>
      let acc' := (48 + n mod 10)%N :: acc in
      if (n / 10 =? 0)%N then acc' else digits_fuel fuel' (n / 10)%N acc'
  end.

Definition digits (n : N) : JsString :=
  digits_fuel (S (N.to_nat (N.log2 n))) n [].

(** [Number.prototype.toString()] on an integer (plain decimal notation,
    which is what the host prints below 10^21). *)
Definition Number_toString (n : Z) : JsString :=
  if n <? 0 then 45%N :: digits (Z.to_N (- n)) else digits (Z.to_N n).

(** *** [parseInt(text, 10)] *)

(** White space and line terminators that [parseInt] skips at the start. *)
Definition isStrWhiteSpaceChar (c : N) : bool :=
  ((9 <=? c) && (c <=? 13) || (c =? 32) || (c =? 160) || (c =? 5760)
   || (8192 <=? c) && (c <=? 8202) || (c =? 8232) || (c =? 8233)
   || (c =? 8239) || (c =? 8287) || (c =? 12288) || (c =? 65279))%N.

Fixpoint trimStart (s : JsString) : JsString :=
  match s with
  | c :: s' => if isStrWhiteSpaceChar c then trimStart s' else s
  | [] => []
  end.

Definition isDigit (c : N) : bool := ((48 <=? c) && (c <=? 57))%N.

(** The longest prefix of decimal digits, and what follows it. *)
Fixpoint span_digits (s : JsString) : JsString * JsString :=
  match s with
  | c :: s' =>
      if isDigit c then let '(ds, rest) := span_digits s' in (c :: ds, rest)
      else ([], s)
  | [] => ([], [])
  end.

(** The number that a sequence of decimal digits denotes. *)
Definition digits_value (ds : JsString) : N :=
  foldl (fun acc c => (10 * acc + (c - 48))%N) 0%N ds.

(** [-1] when the text starts with a minus sign. *)
Definition sign_of (s : JsString) : Z :=
  match s with
  | c :: _ => if (c =? 45)%N then -1 else 1
  | [] => 1
  end.

(** The text without its leading plus or minus sign. *)
Definition after_sign (s : JsString) : JsString :=
  match s with
  | c :: s' => if ((c =? 43) || (c =? 45))%N then s' else s
  | [] => s
  end.

(** [parseInt(text, 10)]; [None] is [NaN]. *)
Definition parseInt (text : JsString) : option Z :=
  let str := trimStart text in
  let sign := sign_of str in
  let str := after_sign str in
  let '(numerals, _) := span_digits str in
  match numerals with
  | [] => None
  | _ => Some (sign * Z.of_N (digits_value numerals))
  end.

(** *** [JSON.parse] *)

(** Values that [JSON.parse] builds.  A number is the exact value of its
    decimal text (rounding to a double and the sign of zero are not
    represented); an object is the finite map of its own properties. *)
#[warnings="-register-all"]
Inductive JsValue : Type :=
  | JNull
  | JBool (b : bool)
  | JNumber (q : Q)
  | JString (s : JsString)
  | JArray (xs : list JsValue)
  | JObject (fields : gmap JsString JsValue).

Definition isJsonWhiteSpace (c : N) : bool :=
  ((c =? 9) || (c =? 10) || (c =? 13) || (c =? 32))%N.

Fixpoint skip_ws (s : JsString) : JsString :=
  match s with
  | c :: s' => if isJsonWhiteSpace c then skip_ws s' else s
  | [] => []
  end.

(** [s] starts with the character [c]: what follows it. *)
Definition starts_with (c : N) (s : JsString) : option JsString :=
  match s with
  | d :: s' => if (d =? c)%N then Some s' else None
  | [] => None
  end.

Definition hex_value (c : N) : option N :=
  if isDigit c then Some (c - 48)%N
  else if ((65 <=? c) && (c <=? 70))%N then Some (c - 55)%N
  else if ((97 <=? c) && (c <=? 102))%N then Some (c - 87)%N
  else None.

(** The character that a one-letter escape stands for. *)
Definition unescape (e : N) : option N :=
  if (e =? 34)%N then Some 34%N
  else if (e =? 92)%N then Some 92%N
  else if (e =? 47)%N then Some 47%N
  else if (e =? 98)%N then Some 8%N
  else if (e =? 102)%N then Some 12%N
  else if (e =? 110)%N then Some 10%N
  else if (e =? 114)%N then Some 13%N
  else if (e =? 116)%N then Some 9%N
  else None.

(** The characters of a string literal after its opening quote, up to and
    including the closing quote. *)
Fixpoint parse_string_chars (s : JsString) : option (JsString * JsString) :=
  match s with
  | [] => None
  | c :: rest =>
      if (c =? 34)%N then Some ([], rest)             (* closing quote *)
      else if (c =? 92)%N then                        (* backslash *)
        match rest with
        | [] => None
        | e :: rest1 =>
            if (e =? 117)%N then                      (* u and four hex digits *)
              match rest1 with
              | a :: b :: c :: d :: rest2 =>
                  match hex_value a, hex_value b, hex_value c, hex_value d with
                  | Some a, Some b, Some c, Some d =>
                      match parse_string_chars rest2 with
                      | Some (cs, rest') =>
                          Some ((4096 * a + 256 * b + 16 * c + d)%N :: cs, rest')
                      | None => None
                      end
                  | _, _, _, _ => None
                  end
              | _ => None
              end
            else
              match unescape e, parse_string_chars rest1 with
              | Some c, Some (cs, rest') => Some (c :: cs, rest')
              | _, _ => None
              end
        end
      else if (c <? 32)%N then None                   (* control character *)
      else
        match parse_string_chars rest with
        | Some (cs, rest') => Some (c :: cs, rest')
        | None => None
        end
  end.

(** The value [m * 10^e] of a decimal numeral. *)
Definition decimal_value (m e : Z) : Q :=
  Qred (inject_Z m * Qpower (inject_Z 10) e).

(** The fraction of a JSON number: its digits (none when absent). *)
Definition parse_frac (s : JsString) : option (JsString * JsString) :=
  match starts_with 46 s with
  | Some s1 =>
      let '(frac, s2) := span_digits s1 in
      match frac with
      | [] => None
      | _ => Some (frac, s2)
      end
  | None => Some ([], s)
  end.

(** The exponent of a JSON number ([0] when absent). *)
Definition parse_exp (s : JsString) : option (Z * JsString) :=
  match s with
  | c :: s1 =>
      if ((c =? 101) || (c =? 69))%N then
        let '(ex, s2) := span_digits (after_sign s1) in
        match ex with
        | [] => None
        | _ => Some (sign_of s1 * Z.of_N (digits_value ex), s2)
        end
      else Some (0, s)
  | [] => Some (0, s)
  end.

(** A JSON number: [-? int frac? exp?], where [int] has no leading zero. *)
Definition parse_number (s : JsString) : option (Q * JsString) :=
  let '(sign, s0) :=
    match starts_with 45 s with
    | Some s' => (-1, s')
    | None => (1, s)
    end in
  let '(int, s1) := span_digits s0 in
  match int with
  | [] => None
  | d :: ds =>
      (* after a leading zero the integer part is over: a digit that
         follows is left in the input *)
      let '(int, s1) :=
        if (d =? 48)%N then ([d], ds ++ s1) else (int, s1) in
      match parse_frac s1 with
      | None => None
      | Some (frac, s2) =>
          match parse_exp s2 with
          | None => None
          | Some (e, s3) =>
              Some (decimal_value
                      (sign * Z.of_N (digits_value (int ++ frac)))
                      (e - Z.of_nat (length frac)), s3)
          end
      end
  end.

(** [s] starts with the literal [lit]: what follows it. *)
Fixpoint strip_prefix (lit s : JsString) : option JsString :=
  match lit, s with
  | [], _ => Some s
  | c :: lit', d :: s' => if (c =? d)%N then strip_prefix lit' s' else None
  | _ :: _, [] => None
  end.

(** Recursive descent over the JSON grammar.  [fuel] bounds the number of
    nested calls. *)
Fixpoint parse_value (fuel : nat) (s : JsString) : option (JsValue * JsString) :=
  match fuel with
  | O => None
  | S fuel' =>
      match skip_ws s with
      | [] => None
      | c :: rest =>
          if (c =? 123)%N then              (* { *)
            match starts_with 125 (skip_ws rest) with
            | Some rest' => Some (JObject ∅, rest')
            | None => parse_members fuel' rest ∅
            end
          else if (c =? 91)%N then          (* [ *)
            match starts_with 93 (skip_ws rest) with
            | Some rest' => Some (JArray [], rest')
            | None => parse_elements fuel' rest []
            end
          else if (c =? 34)%N then          (* string *)
            match parse_string_chars rest with
            | Some (cs, rest') => Some (JString cs, rest')
            | None => None
            end
          else if (c =? 116)%N then
            match strip_prefix (jsstr "true") (c :: rest) with
            | Some rest' => Some (JBool true, rest')
            | None => None
            end
          else if (c =? 102)%N then
            match strip_prefix (jsstr "false") (c :: rest) with
            | Some rest' => Some (JBool false, rest')
            | None => None
            end
          else if (c =? 110)%N then
            match strip_prefix (jsstr "null") (c :: rest) with
            | Some rest' => Some (JNull, rest')
            | None => None
            end
          else
            match parse_number (c :: rest) with
            | Some (q, rest') => Some (JNumber q, rest')
            | None => None
            end
      end
  end
with parse_elements (fuel : nat) (s : JsString) (acc : list JsValue)
    : option (JsValue * JsString) :=
  match fuel with
  | O => None
  | S fuel' =>
      match parse_value fuel' s with
      | Some (v, rest) =>
          match skip_ws rest with
          | c :: rest' =>
              if (c =? 44)%N then parse_elements fuel' rest' (acc ++ [v])
              else if (c =? 93)%N then Some (JArray (acc ++ [v]), rest')
              else None
          | [] => None
          end
      | None => None
      end
  end
with parse_members (fuel : nat) (s : JsString) (acc : gmap JsString JsValue)
    : option (JsValue * JsString) :=
  match fuel with
  | O => None
  | S fuel' =>
      match starts_with 34 (skip_ws s) with
      | Some s1 =>
          match parse_string_chars s1 with
          | Some (key, s2) =>
              match starts_with 58 (skip_ws s2) with
              | Some s3 =>
                  match parse_value fuel' s3 with
                  | Some (v, rest) =>
                      match skip_ws rest with
                      | c :: rest' =>
                          if (c =? 44)%N then
                            parse_members fuel' rest' (<[key := v]> acc)
                          else if (c =? 125)%N then
                            Some (JObject (<[key := v]> acc), rest')
                          else None
                      | [] => None
                      end
                  | None => None
                  end
              | None => None
              end
          | None => None
          end
      | None => None
      end
  end.

(** [JSON.parse(text)]; [None] when it throws a [SyntaxError].  The fuel
    given is enough for every text (see [parse_value_fuel]). *)
Definition JSON_parse (text : JsString) : option JsValue :=
  match parse_value (2 * length text + 2) text with
  | Some (v, rest) =>
      match skip_ws rest with
      | [] => Some v
      | _ => None
      end
  | None => None
  end.

(** ** Type declarations *)

Record BloodPressureReading := {
  systolic : Z;
  diastolic : Z;
  timestamp : Z;
}.

Record Range := { min : Z; max : Z }.

Record BloodPressureConfig := {
  cfg_systolic : Range;
  cfg_diastolic : Range;
  pulsePresssure : Range;
}.

Inductive ErrorType := STORAGE_ERROR | GENERATION_ERROR | VALIDATION_ERROR.

Record AppError := {
  type : ErrorType;
  message : JsString;
  details : option JsString;
}.

(** [DatasetResult]: the dataset is a reference [R] to an array in the
    heap. *)
Module DatasetResult.
Record t (R : Type) := mk {
  success : bool;
  dataset : option R;
  error : option AppError;
}.
Arguments mk {R}.
Arguments success {R} _.
Arguments dataset {R} _.
Arguments error {R} _.
End DatasetResult.

(** ** Arrays in the heap *)

Definition ArrayRef : Type := positive.

(** The heap of arrays: each reference holds the current contents. *)
Abbreviation Heap T := (gmap ArrayRef (list T)).

Section Arrays.
Context {T : Type}.

Definition contents (h : Heap T) (r : ArrayRef) : list T := h !!! r.

(** A new array object with the given elements. *)
Definition alloc (xs : list T) (h : Heap T) : ArrayRef * Heap T :=
  let r := fresh (dom h) in (r, <[r := xs]> h).

(** [[a[i], a[j]] = [a[j], a[i]]]: both reads happen first, then
    [a[i]] and [a[j]] are assigned in that order.  The indices drawn by
    the shuffle lie inside the array; outside it the statement would
    store [undefined] and grow the array, which a list of [T] cannot
    hold, and the embedding leaves the array as it is. *)
Definition swap (a : ArrayRef) (i j : Z) (h : Heap T) : Heap T :=
  let arr := contents h a in
  match index arr j, index arr i with
  | obj xj, obj xi =>
      <[a := <[Z.to_nat j := xi]> (<[Z.to_nat i := xj]> arr)]> h
  | _, _ => h
  end.

(** [Math.floor(Math.random() * (i + 1))], for the value [u] returned by
    [Math.random()]. *)
Definition random_index (u : Q) (i : Z) : Z :=
  Qfloor (u * inject_Z (i + 1)).

(** The loop of [shuffleArray]: [for (let i = length - 1; i > 0; i--)].
    [rnd k] is the value of the [k]-th call to [Math.random()];
    [calls] counts the calls made so far. *)
Fixpoint shuffle_loop (rnd : nat → Q) (shuffled : ArrayRef)
    (i : nat) (calls : nat) (h : Heap T) : Heap T :=
  match i with
  | O => h
  | S i' =>
      let j := random_index (rnd calls) (Z.of_nat i) in
      shuffle_loop rnd shuffled i' (S calls) (swap shuffled (Z.of_nat i) j h)
  end.

(** [shuffleArray(array)]: copies the array, shuffles the copy in place
    and returns the copy. *)
Definition shuffleArray (rnd : nat → Q) (array : ArrayRef) (h : Heap T)
    : ArrayRef * Heap T :=
  let '(shuffled, h1) := alloc (contents h array) h in
  (shuffled,
   shuffle_loop rnd shuffled (length (contents h1 shuffled) - 1) 0 h1).
End Arrays.

(** ** Data generator *)

Definition CONFIG : BloodPressureConfig := {|
  cfg_systolic := {| min := 90; max := 140 |};
  cfg_diastolic := {| min := 60; max := 90 |};
  pulsePresssure := {| min := 20; max := 60 |};
|}.

(** The values of [for (let x = lo; x <= hi; x++)]. *)
Definition for_range (lo hi : Z) : list Z := seqZ lo (hi - lo + 1).

Section Generator.
(** The module reads the constant [CONFIG]; the functions are stated for
    any configuration so that other ranges can be examined. *)
Variable config : BloodPressureConfig.

Definition isValidPulsePreasure (systolic diastolic : Z) : bool :=
  let pulsePressure := systolic - diastolic in
  (min (pulsePresssure config) <=? pulsePressure)
  && (pulsePressure <=? max (pulsePresssure config)).

(** The inner loop of [generateAllCombinations], over the diastolic
    values [ds]; [baseTimestamp] is the value of [Date.now()].
    [combinations.push(x)] appends at the end. *)
Definition push_row (baseTimestamp : Z)
    (combinations : list BloodPressureReading) (systolic : Z) (ds : list Z)
    : list BloodPressureReading :=
  foldl (fun combinations diastolic =>
    if isValidPulsePreasure systolic diastolic
    then combinations ++
         [{| systolic := systolic;
             diastolic := diastolic;
             timestamp :=
               baseTimestamp + Z.of_nat (length combinations) * 1000 |}]
    else combinations) combinations ds.

(** The nested loops of [generateAllCombinations]. *)
Definition enumerate (baseTimestamp : Z) : list BloodPressureReading :=
  foldl (fun combinations systolic =>
    push_row baseTimestamp combinations systolic
      (for_range (min (cfg_diastolic config)) (max (cfg_diastolic config))))
    []
    (for_range (min (cfg_systolic config)) (max (cfg_systolic config))).

(** [generateAllCombinations()]: the array it built, as a new object. *)
Definition generateAllCombinations (now : Z) (h : Heap BloodPressureReading)
    : ArrayRef * Heap BloodPressureReading :=
  alloc (enumerate now) h.

(** The inner loop of [calculateExpectedCombinations]. *)
Definition count_row (count : Z) (systolic : Z) (ds : list Z) : Z :=
  foldl (fun count diastolic =>
    if isValidPulsePreasure systolic diastolic then count + 1 else count)
    count ds.

Definition calculateExpectedCombinations : Z :=
  foldl (fun count systolic =>
    count_row count systolic
      (for_range (min (cfg_diastolic config)) (max (cfg_diastolic config))))
    0
    (for_range (min (cfg_systolic config)) (max (cfg_systolic config))).

(** [generateBloodPressureDataset()].  Nothing in the body of the [try]
    throws, so the [catch] arm has no counterpart. *)
Definition generateBloodPressureDataset (now : Z) (rnd : nat → Q)
    (h : Heap BloodPressureReading)
    : DatasetResult.t ArrayRef * Heap BloodPressureReading :=
  let '(allCombinations, h1) := generateAllCombinations now h in
  let expectedCount := calculateExpectedCombinations in
  let got := Z.of_nat (length (contents h1 allCombinations)) in
  if negb (got =? expectedCount) then
    let error := {|
      type := GENERATION_ERROR;
      message :=
        jsstr "Dataset generation failed: expected "
          ++ Number_toString expectedCount
          ++ jsstr " combinations, got " ++ Number_toString got;
      details :=
        Some (jsstr "The blood pressure range calculations may be incorrect");
    |} in
    (DatasetResult.mk false None (Some error), h1)
  else
    let '(shuffledDataset, h2) := shuffleArray rnd allCombinations h1 in
    (DatasetResult.mk true (Some shuffledDataset) None, h2).

Definition getReadingAtIndex (dataset : Nullable (list BloodPressureReading))
    (index_ : Z) : Nullable BloodPressureReading :=
  match dataset with
  | obj dataset =>
      if (length dataset =? 0)%nat then null
      else
        (* JavaScript's [%] takes the sign of the dividend *)
        let normalizedIndex := Z.rem index_ (Z.of_nat (length dataset)) in
        index dataset normalizedIndex
  | _ => null
  end.

Definition validateReading (reading : Nullable BloodPressureReading) : bool :=
  match reading with
  | obj r =>
      let systolic := systolic r in
      let diastolic := diastolic r in
      if (systolic <? min (cfg_systolic config))
         || (max (cfg_systolic config) <? systolic) then false
      else if (diastolic <? min (cfg_diastolic config))
              || (max (cfg_diastolic config) <? diastolic) then false
      else if negb (isValidPulsePreasure systolic diastolic) then false
      else true
  | _ => false
  end.

(** The count as the specification words it: the pairs of the two
    ranges, filtered by the pulse-pressure predicate. *)
Definition brute_force_count : Z :=
  Z.of_nat (length (List.filter
    (fun p : Z * Z => isValidPulsePreasure p.1 p.2)
    (list_prod
       (for_range (min (cfg_systolic config)) (max (cfg_systolic config)))
       (for_range (min (cfg_diastolic config)) (max (cfg_diastolic config)))))).
End Generator.

(** The values that [Math.random()] may return: [rnd k] is what the
    [k]-th call returns. *)
Definition unit_interval (rnd : nat → Q) : Prop :=
  ∀ k, (0 <= rnd k)%Q ∧ (rnd k < 1)%Q.

(** The pair of pressures of a reading. *)
Definition pressures (r : BloodPressureReading) : Z * Z :=
  (systolic r, diastolic r).

(** A pair that the generator admits: both pressures in their ranges and a
    pulse pressure that passes the predicate. *)
Definition admissible (config : BloodPressureConfig) (p : Z * Z) : Prop :=
  min (cfg_systolic config) ≤ p.1 ≤ max (cfg_systolic config)
  ∧ min (cfg_diastolic config) ≤ p.2 ≤ max (cfg_diastolic config)
  ∧ isValidPulsePreasure config p.1 p.2 = true.

(** ** The host: [window], [localStorage], exceptions *)

(** A thrown value: an [Error] object with its message, or anything else. *)
Inductive Thrown :=
  | ErrorObject (msg : JsString)
  | OtherThrown.

(** The environment the storage manager runs in.  Evaluating the global
    [localStorage] may throw (no such global, access denied); [setItem] may
    throw (quota exceeded, storage disabled), depending on what is stored;
    [getItem] and [removeItem] have no failure of their own. *)
Record Host := {
  window_defined : bool;
  localStorage_denied : option Thrown;
  items : gmap JsString JsString;
  setItem_throws : gmap JsString JsString → JsString → JsString → option Thrown;
  syntaxErrorMessage : JsString → JsString;
}.

Definition with_items (h : Host) (m : gmap JsString JsString) : Host := {|
  window_defined := window_defined h;
  localStorage_denied := localStorage_denied h;
  items := m;
  setItem_throws := setItem_throws h;
  syntaxErrorMessage := syntaxErrorMessage h;
|}.

Inductive Completion (A : Type) : Type :=
  | Normal (a : A)
  | Abrupt (e : Thrown).
Arguments Normal {A} a.
Arguments Abrupt {A} e.

(** Computations that read and write the host and may throw. *)
Definition JS (A : Type) : Type := Host → Completion A * Host.

Definition ret {A} (a : A) : JS A := fun h => (Normal a, h).

Definition bind {A B} (c : JS A) (k : A → JS B) : JS B :=
  fun h =>
    match c h with
    | (Normal a, h') => k a h'
    | (Abrupt e, h') => (Abrupt e, h')
    end.

Notation "x <- c1 ;; c2" := (bind c1 (fun x => c2))
  (at level 100, c1 at next level, c2 at level 200, right associativity).
Notation "c1 ;; c2" := (bind c1 (fun _ => c2))
  (at level 100, c2 at level 200, right associativity).

(** [try { body } catch (error) { handler }] *)
Definition try_catch {A} (body : JS A) (handler : Thrown → JS A) : JS A :=
  fun h =>
    match body h with
    | (Normal a, h') => (Normal a, h')
    | (Abrupt e, h') => handler e h'
    end.

(** [typeof window === 'undefined'] *)
Definition typeof_window_undefined : JS bool :=
  fun h => (Normal (negb (window_defined h)), h).

(** Evaluating the identifier [localStorage]. *)
Definition localStorage : JS unit :=
  fun h =>
    match localStorage_denied h with
    | Some e => (Abrupt e, h)
    | None => (Normal tt, h)
    end.

Definition localStorage_setItem (key value : JsString) : JS unit :=
  localStorage ;;
  fun h =>
    match setItem_throws h (items h) key value with
    | Some e => (Abrupt e, h)
    | None => (Normal tt, with_items h (<[key := value]> (items h)))
    end.

Definition localStorage_removeItem (key : JsString) : JS unit :=
  localStorage ;;
  fun h => (Normal tt, with_items h (delete key (items h))).

(** [localStorage.getItem(key)]; [None] is [null]. *)
Definition localStorage_getItem (key : JsString) : JS (option JsString) :=
  localStorage ;;
  fun h => (Normal (items h !! key), h).

(** [JSON.parse(text)] as a computation: a [SyntaxError] when the text is
    not JSON, with the engine's message. *)
Definition JSON_parse_js (text : JsString) : JS JsValue :=
  fun h =>
    match JSON_parse text with
    | Some v => (Normal v, h)
    | None => (Abrupt (ErrorObject (syntaxErrorMessage h text)), h)
    end.

(** [error instanceof Error ? error.message : fallback] *)
Definition error_message (error : Thrown) (fallback : JsString) : JsString :=
  match error with
  | ErrorObject msg => msg
  | OtherThrown => fallback
  end.

(** *** [JSON.stringify] on a dataset *)

Definition quoted (s : JsString) : JsString := [34%N] ++ s ++ [34%N].

Definition stringify_member (key : JsString) (n : Z) : JsString :=
  quoted key ++ [58%N] ++ Number_toString n.

(** An object with the three own properties of a reading, in the order in
    which the object literal of the generator lists them. *)
Definition stringify_reading (r : BloodPressureReading) : JsString :=
  [123%N]
    ++ stringify_member (jsstr "systolic") (systolic r) ++ [44%N]
    ++ stringify_member (jsstr "diastolic") (diastolic r) ++ [44%N]
    ++ stringify_member (jsstr "timestamp") (timestamp r)
    ++ [125%N].

Fixpoint join_comma (xs : list JsString) : JsString :=
  match xs with
  | [] => []
  | [x] => x
  | x :: xs' => x ++ [44%N] ++ join_comma xs'
  end.

(** [JSON.stringify(dataset)] for an array of readings. *)
Definition JSON_stringify (dataset : list BloodPressureReading) : JsString :=
  [91%N] ++ join_comma (stringify_reading <$> dataset) ++ [93%N].

(** The value that a reading, and a dataset, is in the host. *)
Definition reading_value (r : BloodPressureReading) : JsValue :=
  JObject
    (<[jsstr "timestamp" := JNumber (inject_Z (timestamp r))]>
       (<[jsstr "diastolic" := JNumber (inject_Z (diastolic r))]>
          (<[jsstr "systolic" := JNumber (inject_Z (systolic r))]> ∅))).

Definition dataset_value (dataset : list BloodPressureReading) : JsValue :=
  JArray (reading_value <$> dataset).

(** ** Storage manager *)

Module StorageResult.
Record t (T : Type) := mk {
  success : bool;
  data : option T;
  error : option AppError;
}.
Arguments mk {T}.
Arguments success {T} _.
Arguments data {T} _.
Arguments error {T} _.
End StorageResult.

Record StorageKeys := {
  key_dataset : JsString;
  key_index : JsString;
  key_timestamp : JsString;
}.

Definition STORAGE_KEYS : StorageKeys := {|
  key_dataset := jsstr "bp-dataset";
  key_index := jsstr "bp-index";
  key_timestamp := jsstr "bp-timestamp";
|}.

(** The key that the availability probe writes and removes. *)
Definition probe_key : JsString := jsstr "__localStorage_test__".
Arguments probe_key : simpl never.

Definition isLocalStorageAvailable : JS bool :=
  try_catch
    (absent <- typeof_window_undefined ;;
     if absent then ret false
     else
       let test := probe_key in
       localStorage_setItem test test ;;
       localStorage_removeItem test ;;
       ret true)
    (fun _ => ret false).

Definition createStorageError (message : JsString) (details : option JsString)
    : AppError :=
  {| type := STORAGE_ERROR; message := message; details := details |}.

(** [{ success: false, error }] *)
Definition failed {T} (e : AppError) : StorageResult.t T :=
  StorageResult.mk false None (Some e).

(** [{ success: true, data }] *)
Definition succeeded {T} (data : option T) : StorageResult.t T :=
  StorageResult.mk true data None.

Definition safeJsonParse (jsonString : JsString) : JS (StorageResult.t JsValue) :=
  try_catch
    (data <- JSON_parse_js jsonString ;;
     ret (succeeded (Some data)))
    (fun error =>
       ret (failed (createStorageError (jsstr "Failed to parse JSON data")
              (Some (error_message error (jsstr "Invalid JSON format")))))).

Definition storeDataset (dataset : list BloodPressureReading)
    : JS (StorageResult.t unit) :=
  available <- isLocalStorageAvailable ;;
  if negb available then
    ret (failed (createStorageError (jsstr "localStorage is not available") None))
  else
    try_catch
      (let jsonData := JSON_stringify dataset in
       localStorage_setItem (key_dataset STORAGE_KEYS) jsonData ;;
       ret (succeeded None))
      (fun error =>
         ret (failed (createStorageError (jsstr "Failed to store dataset")
                (Some (error_message error (jsstr "Unknown storage error")))))).

Definition getDataset : JS (StorageResult.t JsValue) :=
  available <- isLocalStorageAvailable ;;
  if negb available then
    ret (failed (createStorageError (jsstr "localStorage is not available") None))
  else
    try_catch
      (jsonData <- localStorage_getItem (key_dataset STORAGE_KEYS) ;;
       match jsonData with
       | None | Some [] =>       (* [!jsonData]: null or the empty string *)
           ret (failed (createStorageError (jsstr "No dataset found in storage") None))
       | Some jsonData => safeJsonParse jsonData
       end)
      (fun error =>
         ret (failed (createStorageError (jsstr "Failed to retrieve dataset")
                (Some (error_message error (jsstr "Unknown retrieval error")))))).

Definition storeCurrentIndex (index : Z) : JS (StorageResult.t unit) :=
  available <- isLocalStorageAvailable ;;
  if negb available then
    ret (failed (createStorageError (jsstr "localStorage is not available") None))
  else
    try_catch
      (localStorage_setItem (key_index STORAGE_KEYS) (Number_toString index) ;;
       ret (succeeded None))
      (fun error =>
         ret (failed (createStorageError (jsstr "Failed to store current index")
                (Some (error_message error (jsstr "Unknown storage error")))))).

Definition getCurrentIndex : JS (StorageResult.t Z) :=
  available <- isLocalStorageAvailable ;;
  if negb available then
    ret (failed (createStorageError (jsstr "localStorage is not available") None))
  else
    try_catch
      (indexString <- localStorage_getItem (key_index STORAGE_KEYS) ;;
       match indexString with
       | None =>
           ret (failed (createStorageError (jsstr "No index found in storage") None))
       | Some indexString =>
           match parseInt indexString with
           | None =>             (* [isNaN(index)] *)
               ret (failed (createStorageError
                              (jsstr "Invalid index format in storage") None))
           | Some index => ret (succeeded (Some index))
           end
       end)
      (fun error =>
         ret (failed (createStorageError (jsstr "Failed to retrieve current index")
                (Some (error_message error (jsstr "Unknown retrieval error")))))).

Definition storeTimestamp (timestamp : Z) : JS (StorageResult.t unit) :=
  available <- isLocalStorageAvailable ;;
  if negb available then
    ret (failed (createStorageError (jsstr "localStorage is not available") None))
  else
    try_catch
      (localStorage_setItem (key_timestamp STORAGE_KEYS) (Number_toString timestamp) ;;
       ret (succeeded None))
      (fun error =>
         ret (failed (createStorageError (jsstr "Failed to store timestamp")
                (Some (error_message error (jsstr "Unknown storage error")))))).

Definition getTimestamp : JS (StorageResult.t Z) :=
  available <- isLocalStorageAvailable ;;
  if negb available then
    ret (failed (createStorageError (jsstr "localStorage is not available") None))
  else
    try_catch
      (timestampString <- localStorage_getItem (key_timestamp STORAGE_KEYS) ;;
       match timestampString with
       | None =>
           ret (failed (createStorageError (jsstr "No timestamp found in storage") None))
       | Some timestampString =>
           match parseInt timestampString with
           | None =>
               ret (failed (createStorageError
                              (jsstr "Invalid timestamp format in storage") None))
           | Some timestamp => ret (succeeded (Some timestamp))
           end
       end)
      (fun error =>
         ret (failed (createStorageError (jsstr "Failed to retrieve timestamp")
                (Some (error_message error (jsstr "Unknown retrieval error")))))).

Definition clearStorage : JS (StorageResult.t unit) :=
  available <- isLocalStorageAvailable ;;
  if negb available then
    ret (failed (createStorageError (jsstr "localStorage is not available") None))
  else
    try_catch
      (localStorage_removeItem (key_dataset STORAGE_KEYS) ;;
       localStorage_removeItem (key_index STORAGE_KEYS) ;;
       localStorage_removeItem (key_timestamp STORAGE_KEYS) ;;
       ret (succeeded None))
      (fun error =>
         ret (failed (createStorageError (jsstr "Failed to clear storage")
                (Some (error_message error (jsstr "Unknown error")))))).

Definition isAppInitialized : JS bool :=
  available <- isLocalStorageAvailable ;;
  if negb available then ret false
  else
    dataset <- localStorage_getItem (key_dataset STORAGE_KEYS) ;;
    index <- localStorage_getItem (key_index STORAGE_KEYS) ;;
    timestamp <- localStorage_getItem (key_timestamp STORAGE_KEYS) ;;
    let hasDataset := bool_decide (is_Some dataset) in
    let hasIndex := bool_decide (is_Some index) in
    let hasTimestamp := bool_decide (is_Some timestamp) in
    ret (hasDataset && hasIndex && hasTimestamp).

Definition getStorageKeys : StorageKeys := STORAGE_KEYS.

(** Persistence is absent or unavailable: there is no [window], the
    global [localStorage] cannot be evaluated, or the probe's write is
    refused. *)
Definition unavailable (h : Host) : Prop :=
  window_defined h = false
  ∨ is_Some (localStorage_denied h)
  ∨ is_Some (setItem_throws h (items h) probe_key probe_key).

(** The result that every operation gives when persistence is not
    available. *)
Definition not_available {T} : StorageResult.t T :=
  failed (createStorageError (jsstr "localStorage is not available") None).

(** Persistence is available: the probe's write is accepted. *)
Definition available (h : Host) : Prop :=
  window_defined h = true
  ∧ localStorage_denied h = None
  ∧ setItem_throws h (items h) probe_key probe_key = None.

(** The host after a probe that succeeded: the probe key is gone. *)
Definition probed (h : Host) : Host :=
  with_items h (delete probe_key (items h)).

(** What a store operation comes to once the probe has succeeded: the
    host's [setItem] decides between a failure that carries the message of
    what was thrown, and a success that has written the slot. *)
Definition store_outcome (h : Host) (key text message : JsString)
    : Completion (StorageResult.t unit) * Host :=
  match setItem_throws h (delete probe_key (items h)) key text with
  | Some e =>
      (Normal (failed (createStorageError message
                 (Some (error_message e (jsstr "Unknown storage error"))))),
       probed h)
  | None =>
      (Normal (succeeded None),
       with_items h (<[key := text]> (delete probe_key (items h))))
  end.

(** The two shapes of a result: a success without error, or a failure
    without data whose error is a [STORAGE_ERROR]. *)
Definition storage_result_shape {T} (r : StorageResult.t T) : Prop :=
  (StorageResult.success r = true ∧ StorageResult.error r = None)
  ∨ (StorageResult.success r = false
     ∧ StorageResult.data r = None
     ∧ ∃ e, StorageResult.error r = Some e ∧ type e = STORAGE_ERROR).

(** A character that stands for itself inside a JSON string literal. *)
Definition plain_char (c : N) : bool :=
  (negb (c <? 32) && negb (c =? 34) && negb (c =? 92))%N.

(** ** Display: the category of a reading *)

Record CategoryInfo := {
  category : JsString;
  color : JsString;
  description : JsString;
}.

Definition getBloodPressureCategory (systolic diastolic : Z) : CategoryInfo :=
  if (systolic <? 120) && (diastolic <? 80) then
    {| category := jsstr "Normal";
       color := jsstr "text-green-600";
       description := jsstr "Optimal blood pressure" |}
  else if (systolic <? 130) && (diastolic <? 80) then
    {| category := jsstr "Elevated";
       color := jsstr "text-yellow-600";
       description := jsstr "Above normal range" |}
  else if (systolic <? 140) || (diastolic <? 90) then
    {| category := jsstr "High Stage 1";
       color := jsstr "text-orange-600";
       description := jsstr "Mild hypertension" |}
  else
    {| category := jsstr "High Stage 2";
       color := jsstr "text-red-600";
       description := jsstr "Moderate hypertension" |}.

(** The four categories in the order of the branches, from 0 for
    'Normal' to 3 for 'High Stage 2'. *)
Definition category_rank (info : CategoryInfo) : nat :=
  if bool_decide (category info = jsstr "Normal") then 0
  else if bool_decide (category info = jsstr "Elevated") then 1
  else if bool_decide (category info = jsstr "High Stage 1") then 2
  else 3.

(** How many readings of a list fall in a category. *)
Definition count_category (name : JsString)
    (readings : list BloodPressureReading) : nat :=
  length (List.filter
    (fun r => bool_decide
       (category (getBloodPressureCategory (systolic r) (diastolic r)) = name))
    readings).

(** ** The page: its state and its event handlers *)

Record AppState := {
  currentReading : Nullable BloodPressureReading;
  datasetSize : Z;
  currentIndex : Z;
  isInitialized : bool;
}.

(** The four state variables of the component [Home]; [error] is a string
    or [null], [dataset] a reference to an array of readings. *)
Record PageState := {
  appState : AppState;
  isLoading : bool;
  error : option JsString;
  dataset : ArrayRef;
}.

(** What a handler runs in: the state of the render that holds the
    handler, the heap of arrays and the host.  The updates that a handler
    passes to the state setters make up the state of the next render;
    writing to the console changes nothing here. *)
Record World := {
  page : PageState;
  heap : Heap BloodPressureReading;
  host : Host;
}.

Definition setAppState (a : AppState) (s : PageState) : PageState :=
  {| appState := a; isLoading := isLoading s; error := error s;
     dataset := dataset s |}.

Definition setIsLoading (b : bool) (s : PageState) : PageState :=
  {| appState := appState s; isLoading := b; error := error s;
     dataset := dataset s |}.

Definition setError (e : option JsString) (s : PageState) : PageState :=
  {| appState := appState s; isLoading := isLoading s; error := e;
     dataset := dataset s |}.

Definition setDataset (d : ArrayRef) (s : PageState) : PageState :=
  {| appState := appState s; isLoading := isLoading s; error := error s;
     dataset := d |}.

(** The state of the first render: the initial values given to
    [useState]. *)
Definition Home (host : Host) : World :=
  let '(empty, heap) := alloc [] ∅ in
  {| page := {| appState := {| currentReading := null;
                               datasetSize := 0;
                               currentIndex := 0;
                               isInitialized := false |};
                isLoading := true;
                error := None;
                dataset := empty |};
     heap := heap;
     host := host |}.

(** [!x] for a value that is an object, [null] or [undefined]. *)
Definition not_ {T} (x : Nullable T) : bool :=
  match x with
  | obj _ => false
  | _ => true
  end.

(** The details are appended when present and not the empty string. *)
Definition handleError (appError : AppError) (s : PageState) : PageState :=
  setIsLoading false
    (setError
       (Some (message appError ++
              match details appError with
              | Some (c :: d) => jsstr " (" ++ (c :: d) ++ jsstr ")"
              | _ => []
              end)) s).

(** [initializeApp()].  [now] is the value of [Date.now()] inside the
    generator, [timestamp] its value when the timestamp is taken, [rnd] the
    values of [Math.random()]. *)
Definition initializeApp (now timestamp : Z) (rnd : nat → Q) (w : World)
    : World :=
  let s := setError None (setIsLoading true (page w)) in
  let caught (e : Thrown) (s : PageState)
      (heap : Heap BloodPressureReading) (host : Host) : World :=
    {| page :=
         handleError
           {| type := GENERATION_ERROR;
              message := jsstr "Failed to initialize app";
              details := Some (error_message e (jsstr "Unknown error")) |} s;
       heap := heap; host := host |} in
  let '(result, heap1) := generateBloodPressureDataset CONFIG now rnd (heap w) in
  match DatasetResult.success result, DatasetResult.dataset result with
  | true, Some newDataset =>
      let s := setDataset newDataset s in
      match storeDataset (contents heap1 newDataset) (host w) with
      | (Abrupt e, host1) => caught e s heap1 host1
      | (Normal storeResult, host1) =>
          match StorageResult.success storeResult,
                StorageResult.error storeResult with
          | false, Some error =>
              {| page := handleError error s; heap := heap1; host := host1 |}
          | _, _ =>
              let initialIndex := 0 in
              match storeCurrentIndex initialIndex host1 with
              | (Abrupt e, host2) => caught e s heap1 host2
              | (Normal indexResult, host2) =>
                  match StorageResult.success indexResult,
                        StorageResult.error indexResult with
                  | false, Some error =>
                      {| page := handleError error s;
                         heap := heap1; host := host2 |}
                  | _, _ =>
                      match storeTimestamp timestamp host2 with
                      | (Abrupt e, host3) => caught e s heap1 host3
                      | (Normal timestampResult, host3) =>
                          match StorageResult.success timestampResult,
                                StorageResult.error timestampResult with
                          | false, Some error =>
                              {| page := handleError error s;
                                 heap := heap1; host := host3 |}
                          | _, _ =>
                              let firstReading :=
                                getReadingAtIndex
                                  (obj (contents heap1 newDataset))
                                  initialIndex in
                              if not_ firstReading
                                 || negb (validateReading CONFIG firstReading)
                              then
                                {| page :=
                                     handleError
                                       {| type := VALIDATION_ERROR;
                                          message := jsstr "Invalid first reading";
                                          details := None |} s;
                                   heap := heap1; host := host3 |}
                              else
                                {| page :=
                                     setIsLoading false
                                       (setAppState
                                          {| currentReading := firstReading;
                                             datasetSize :=
                                               Z.of_nat (length
                                                 (contents heap1 newDataset));
                                             currentIndex := initialIndex;
                                             isInitialized := true |} s);
                                   heap := heap1; host := host3 |}
                          end
                      end
                  end
              end
          end
      end
  | _, _ =>
      {| page :=
           handleError
             (default {| type := GENERATION_ERROR;
                         message := jsstr "Failed to generate dataset";
                         details := None |}
                (DatasetResult.error result)) s;
         heap := heap1; host := host w |}
  end.

(** [getNextReading()], the handler of a tap.  It has no [try]: what a
    storage call throws leaves the handler, and nothing is updated. *)
Definition getNextReading (w : World) : Completion unit * World :=
  let s := page w in
  let readings := contents (heap w) (dataset s) in
  if negb (isInitialized (appState s)) || (length readings =? 0)%nat then
    (Normal tt, w)
  else
    let nextIndex := currentIndex (appState s) + 1 in
    let nextReading := getReadingAtIndex (obj readings) nextIndex in
    if not_ nextReading || negb (validateReading CONFIG nextReading) then
      (Normal tt,
       {| page :=
            handleError {| type := VALIDATION_ERROR;
                           message := jsstr "Invalid next reading";
                           details := None |} s;
          heap := heap w; host := host w |})
    else
      match storeCurrentIndex nextIndex (host w) with
      | (Abrupt e, host1) =>
          (Abrupt e, {| page := s; heap := heap w; host := host1 |})
      | (Normal storeResult, host1) =>
          (* a failure to store is logged and otherwise ignored *)
          (Normal tt,
           {| page :=
                setAppState
                  {| currentReading := nextReading;
                     datasetSize := datasetSize (appState s);
                     currentIndex := nextIndex;
                     isInitialized := isInitialized (appState s) |} s;
              heap := heap w; host := host1 |})
      end.

(** [resetApp()]: [initializeApp] runs to its end inside the call, after
    the setters of the reset. *)
Definition resetApp (now timestamp : Z) (rnd : nat → Q) (w : World)
    : Completion unit * World :=
  match clearStorage (host w) with
  | (Abrupt e, host1) =>
      (Abrupt e, {| page := page w; heap := heap w; host := host1 |})
  | (Normal _, host1) =>
      let '(empty, heap1) := alloc [] (heap w) in
      let s :=
        setError None
          (setDataset empty
             (setAppState {| currentReading := null;
                             datasetSize := 0;
                             currentIndex := 0;
                             isInitialized := false |} (page w))) in
      (Normal tt,
       initializeApp now timestamp rnd
         {| page := s; heap := heap1; host := host1 |})
  end.

(** [n] taps, one render after the other. *)
Fixpoint taps (n : nat) (w : World) : World :=
  match n with
  | O => w
  | S n' => taps n' (getNextReading w).2
  end.

(** A host whose store accepts every write. *)
Definition healthy (h : Host) : Prop :=
  window_defined h = true
  ∧ localStorage_denied h = None
  ∧ ∀ m key value, setItem_throws h m key value = None.

(** ** Example inputs *)

(** Ranges with no admissible pair: every difference is at most 5. *)
Definition no_pairs_config : BloodPressureConfig := {|
  cfg_systolic := {| min := 90; max := 100 |};
  cfg_diastolic := {| min := 95; max := 99 |};
  pulsePresssure := {| min := 20; max := 60 |};
|}.

(** A source of draws that always returns 1/2. *)
Definition half_draws : nat → Q := fun _ => (1 # 2)%Q.

Definition three_readings : list BloodPressureReading :=
  [ {| systolic := 120; diastolic := 80; timestamp := 0 |};
    {| systolic := 121; diastolic := 80; timestamp := 1000 |};
    {| systolic := 122; diastolic := 80; timestamp := 2000 |} ].

(** A host with a window, an empty [localStorage] and no failure. *)
Definition fresh_browser : Host := {|
  window_defined := true;
  localStorage_denied := None;
  items := ∅;
  setItem_throws := fun _ _ _ => None;
  syntaxErrorMessage := fun _ => jsstr "Unexpected token";
|}.

(** A host without [window] (rendering on the server). *)
Definition no_window : Host := {|
  window_defined := false;
  localStorage_denied := Some (ErrorObject (jsstr "localStorage is not defined"));
  items := ∅;
  setItem_throws := fun _ _ _ => None;
  syntaxErrorMessage := fun _ => jsstr "Unexpected token";
|}.

(** A browser whose store accepts the probe but nothing else: the quota
    is used up. *)
Definition full_browser : Host := {|
  window_defined := true;
  localStorage_denied := None;
  items := ∅;
  setItem_throws := fun _ key _ =>
    if bool_decide (key = probe_key) then None
    else Some (ErrorObject (jsstr "The quota has been exceeded."));
  syntaxErrorMessage := fun _ => jsstr "Unexpected token";
|}.

(** An initialised page over the three readings, at cursor 0. *)
Definition showing_three (h : Host) : World := {|
  page := {|
    appState := {|
      currentReading :=
        obj {| systolic := 120; diastolic := 80; timestamp := 0 |};
      datasetSize := 3;
      currentIndex := 0;
      isInitialized := true;
    |};
    isLoading := false;
    error := None;
    dataset := 1%positive;
  |};
  heap := {[1%positive := three_readings]};
  host := h;
|}.

(** A browser whose index slot holds text that is not a number. *)
Definition corrupted_index : Host := {|
  window_defined := true;
  localStorage_denied := None;
  items := {[key_index STORAGE_KEYS := jsstr "abc"]};
  setItem_throws := fun _ _ _ => None;
  syntaxErrorMessage := fun _ => jsstr "Unexpected token";
|}.

(** * Properties *)

(** ** The enumeration and its count *)

Section Enumeration.
Variable config : BloodPressureConfig.
Variable baseTimestamp : Z.

Lemma push_row_length ds s acc :
  Z.of_nat (length (push_row config baseTimestamp acc s ds))
  = count_row config (Z.of_nat (length acc)) s ds.
Proof.
  unfold push_row, count_row.
  revert acc. induction ds as [|d ds IH]; intros acc; [reflexivity|].
  cbn. destruct (isValidPulsePreasure config s d); rewrite IH; [|done].
  f_equal. rewrite length_app. cbn. lia.
Qed.

Lemma enumerate_rows_length ss ds acc :
  Z.of_nat (length (foldl (fun acc s => push_row config baseTimestamp acc s ds) acc ss))
  = foldl (fun c s => count_row config c s ds) (Z.of_nat (length acc)) ss.
Proof.
  revert acc. induction ss as [|s ss IH]; intros acc; [reflexivity|].
  cbn [foldl]. rewrite IH. by rewrite push_row_length.
Qed.

(** The two loops count the same pairs: the array built by
    [generateAllCombinations] has [calculateExpectedCombinations]
    elements. *)
Lemma enumerate_length :
  Z.of_nat (length (enumerate config baseTimestamp))
  = calculateExpectedCombinations config.
Proof. apply (enumerate_rows_length _ _ []). Qed.

Lemma count_row_filter ds s c :
  count_row config c s ds
  = c + Z.of_nat (length (List.filter
          (fun p : Z * Z => isValidPulsePreasure config p.1 p.2)
          (List.map (fun d => (s, d)) ds))).
Proof.
  unfold count_row.
  revert c. induction ds as [|d ds IH]; intros c; [cbn; lia|].
  cbn. destruct (isValidPulsePreasure config s d); rewrite IH; cbn; lia.
Qed.

Lemma count_rows_filter ss ds c :
  foldl (fun c s => count_row config c s ds) c ss
  = c + Z.of_nat (length (List.filter
          (fun p : Z * Z => isValidPulsePreasure config p.1 p.2)
          (list_prod ss ds))).
Proof.
  revert c. induction ss as [|s ss IH]; intros c; [cbn; lia|].
  cbn [foldl list_prod]. rewrite IH, count_row_filter, List.filter_app, length_app. lia.
Qed.

Lemma calculateExpectedCombinations_brute_force :
  calculateExpectedCombinations config = brute_force_count config.
Proof. apply (count_rows_filter _ _ 0). Qed.

(** What the loops push passes [validateReading]. *)

Lemma push_row_valid ds s acc :
  min (cfg_systolic config) ≤ s ≤ max (cfg_systolic config) →
  Forall (fun d => min (cfg_diastolic config) ≤ d ≤ max (cfg_diastolic config)) ds →
  Forall (fun r => validateReading config (obj r) = true) acc → Forall (fun r => validateReading config (obj r) = true) (push_row config baseTimestamp acc s ds).
Proof.
  intros Hs Hds. unfold push_row. revert acc.
  induction Hds as [|d ds Hd Hds IH]; intros acc Hacc; [done|].
  cbn. destruct (isValidPulsePreasure config s d) eqn:Hp; [|by apply IH].
  apply IH, Forall_app. split; [done|].
  constructor; [|done]. unfold validateReading. cbn. rewrite Hp.
  replace (s <? min (cfg_systolic config)) with false by lia.
  replace (max (cfg_systolic config) <? s) with false by lia.
  replace (d <? min (cfg_diastolic config)) with false by lia.
  replace (max (cfg_diastolic config) <? d) with false by lia.
  reflexivity.
Qed.

Lemma for_range_bounds lo hi :
  Forall (fun x => lo ≤ x ≤ hi) (for_range lo hi).
Proof.
  apply Forall_forall. intros x Hx.
  apply elem_of_seqZ in Hx. lia.
Qed.

Lemma enumerate_valid :
  Forall (fun r => validateReading config (obj r) = true) (enumerate config baseTimestamp).
Proof.
  unfold enumerate.
  pose proof (for_range_bounds (min (cfg_systolic config))
                (max (cfg_systolic config))) as Hss.
  pose proof (for_range_bounds (min (cfg_diastolic config))
                (max (cfg_diastolic config))) as Hds.
  revert Hss. generalize (for_range (min (cfg_systolic config))
                            (max (cfg_systolic config))).
  intros ss Hss.
  assert (Hnil : Forall (fun r => validateReading config (obj r) = true) [])
    by constructor.
  revert Hnil. generalize (@nil BloodPressureReading).
  induction Hss as [|s ss Hs Hss IH]; intros acc Hacc; [done|].
  cbn [foldl]. apply IH. by apply push_row_valid.
Qed.
End Enumeration.

(** ** Arrays in the heap and the shuffle *)

Section ShuffleFacts.
Context {T : Type}.
Implicit Types (h : Heap T) (a r : ArrayRef) (arr : list T).

Lemma index_obj arr n x :
  index arr n = obj x ↔ 0 ≤ n ∧ arr !! Z.to_nat n = Some x.
Proof.
  unfold index. destruct (Z.ltb_spec n 0).
  - split; [done | lia].
  - destruct (arr !! Z.to_nat n); split; intros Hx.
    + split; [lia | congruence].
    + destruct Hx as [_ Hx]. congruence.
    + done.
    + by destruct Hx.
Qed.

Lemma index_in_range arr n :
  0 ≤ n < Z.of_nat (length arr) → ∃ x, index arr n = obj x.
Proof.
  intros Hn. destruct (lookup_lt_is_Some_2 arr (Z.to_nat n)) as [x Hx]; [lia|].
  exists x. apply index_obj. split; [lia | done].
Qed.

Lemma contents_insert h a arr : contents (<[a := arr]> h) a = arr.
Proof. unfold contents. by rewrite lookup_total_insert_eq. Qed.

Lemma alloc_fresh arr h : (alloc arr h).1 ∉ dom h.
Proof. apply is_fresh. Qed.

Lemma alloc_contents arr h : contents (alloc arr h).2 (alloc arr h).1 = arr.
Proof. apply contents_insert. Qed.

Lemma alloc_frame arr h : delete (alloc arr h).1 (alloc arr h).2 = h.
Proof.
  unfold alloc. cbn. rewrite delete_insert_eq.
  apply delete_id, not_elem_of_dom, is_fresh.
Qed.

(** The draw is an index of the part of the array still to be shuffled. *)
Lemma random_index_range u i :
  (0 <= u)%Q → (u < 1)%Q → 0 ≤ i → 0 ≤ random_index u i ≤ i.
Proof.
  intros H0 H1 Hi. unfold random_index.
  assert (Hpos : (0 < inject_Z (i + 1))%Q).
  { change 0%Q with (inject_Z 0). rewrite <- Zlt_Qlt. lia. }
  split.
  - rewrite <- (Qfloor_Z 0). apply Qfloor_resp_le.
    change (inject_Z 0) with 0%Q. apply Qmult_le_0_compat; [done|].
    by apply Qlt_le_weak.
  - cut (Qfloor (u * inject_Z (i + 1)) < i + 1); [lia|].
    rewrite Zlt_Qlt.
    eapply Qle_lt_trans; [apply Qfloor_le|].
    rewrite <- (Qmult_1_l (inject_Z (i + 1))) at 2.
    by apply Qmult_lt_compat_r.
Qed.

(** A swap touches one array only. *)
Lemma swap_frame a i j h : delete a (swap a i j h) = delete a h.
Proof.
  unfold swap.
  destruct (index (contents h a) j), (index (contents h a) i); try done.
  by rewrite delete_insert_eq.
Qed.

(** Inside the array a swap is the two assignments of the source. *)
Lemma swap_in_range a i j h :
  0 ≤ i < Z.of_nat (length (contents h a)) →
  0 ≤ j < Z.of_nat (length (contents h a)) →
  ∃ xi xj,
    contents h a !! Z.to_nat i = Some xi ∧
    contents h a !! Z.to_nat j = Some xj ∧
    swap a i j h
    = <[a := <[Z.to_nat j := xi]> (<[Z.to_nat i := xj]> (contents h a))]> h.
Proof.
  intros Hi Hj.
  destruct (index_in_range _ _ Hi) as [xi Hxi].
  destruct (index_in_range _ _ Hj) as [xj Hxj].
  exists xi, xj. unfold swap. rewrite Hxi, Hxj.
  apply index_obj in Hxi as [_ Hxi]. apply index_obj in Hxj as [_ Hxj].
  done.
Qed.

Lemma swap_permutation a i j h :
  0 ≤ i < Z.of_nat (length (contents h a)) →
  0 ≤ j < Z.of_nat (length (contents h a)) →
  contents (swap a i j h) a ≡ₚ contents h a.
Proof.
  intros Hi Hj.
  destruct (swap_in_range a i j h Hi Hj) as (xi & xj & Hxi & Hxj & ->).
  rewrite contents_insert. by apply Permutation_insert_swap.
Qed.

Lemma shuffle_loop_frame rnd a i calls h :
  delete a (shuffle_loop rnd a i calls h) = delete a h.
Proof.
  revert calls h. induction i as [|i IH]; intros calls h; [done|].
  cbn [shuffle_loop]. by rewrite IH, swap_frame.
Qed.

(** The loop permutes the array it works on, whatever indices are
    drawn. *)
Lemma shuffle_loop_permutation rnd a i calls h :
  unit_interval rnd →
  (i < length (contents h a))%nat →
  contents (shuffle_loop rnd a i calls h) a ≡ₚ contents h a.
Proof.
  intros Hrnd. revert calls h.
  induction i as [|i IH]; intros calls h Hi; [done|].
  cbn [shuffle_loop].
  destruct (Hrnd calls) as [H0 H1].
  pose proof (random_index_range (rnd calls) (Z.of_nat (S i)) H0 H1
                ltac:(lia)) as Hj.
  assert (Hswap : contents (swap a (Z.of_nat (S i))
                    (random_index (rnd calls) (Z.of_nat (S i))) h) a
                  ≡ₚ contents h a)
    by (apply swap_permutation; lia).
  rewrite IH; [done|].
  rewrite (Permutation_length Hswap). lia.
Qed.

Lemma shuffleArray_fresh rnd a h : (shuffleArray rnd a h).1 ∉ dom h.
Proof. apply is_fresh. Qed.

Lemma shuffleArray_frame rnd a h :
  delete (shuffleArray rnd a h).1 (shuffleArray rnd a h).2 = h.
Proof.
  unfold shuffleArray.
  pose proof (alloc_frame (contents h a) h) as Hf.
  destruct (alloc (contents h a) h) as [s h1]. cbn [fst snd] in *.
  by rewrite shuffle_loop_frame.
Qed.

Lemma shuffleArray_contents rnd a h :
  unit_interval rnd →
  contents (shuffleArray rnd a h).2 (shuffleArray rnd a h).1
  ≡ₚ contents h a.
Proof.
  intros Hrnd. unfold shuffleArray.
  pose proof (alloc_contents (contents h a) h) as Hc.
  destruct (alloc (contents h a) h) as [s h1]. cbn [fst snd] in *.
  rewrite Hc.
  destruct (contents h a) as [|x xs] eqn:Harr.
  - cbn [length Nat.sub shuffle_loop]. by rewrite Hc.
  - rewrite shuffle_loop_permutation; [by rewrite Hc|done|].
    rewrite Hc. cbn [length]. lia.
Qed.

(** Heaps that agree off [s] hold the same array at any other place. *)
Lemma contents_frame h h' s r :
  delete s h' = h → s ∉ dom h → r ∈ dom h → contents h' r = contents h r.
Proof.
  intros <- Hs Hr. unfold contents.
  assert (r ≠ s) by (intros ->; done).
  by rewrite lookup_total_delete_ne.
Qed.

Lemma contents_outside h r : r ∉ dom h → contents h r = [].
Proof.
  intros Hr. unfold contents.
  rewrite lookup_total_alt. by apply not_elem_of_dom in Hr as ->.
Qed.

Lemma shuffleArray_input rnd a h :
  contents (shuffleArray rnd a h).2 a = contents h a.
Proof.
  destruct (decide (a ∈ dom h)) as [Ha|Ha].
  - eapply contents_frame; [apply shuffleArray_frame| |done].
    apply shuffleArray_fresh.
  - rewrite (contents_outside h a Ha).
    unfold shuffleArray.
    destruct (alloc (contents h a) h) as [s h1] eqn:Halloc.
    rewrite (contents_outside h a Ha) in *.
    unfold alloc in Halloc. injection Halloc as <- <-.
    rewrite contents_insert. cbn.
    destruct (decide (a = fresh (dom h))) as [->|Hne].
    + apply contents_insert.
    + unfold contents. rewrite lookup_total_insert_ne by done.
      by apply (contents_outside h a).
Qed.
End ShuffleFacts.

(** ** Generated datasets *)

(** The count check of [generateBloodPressureDataset] always passes: the
    function returns the shuffled copy of the enumeration. *)
Lemma generateBloodPressureDataset_run config now rnd h :
  generateBloodPressureDataset config now rnd h
  = (DatasetResult.mk true
       (Some (shuffleArray rnd (alloc (enumerate config now) h).1
                (alloc (enumerate config now) h).2).1) None,
     (shuffleArray rnd (alloc (enumerate config now) h).1
        (alloc (enumerate config now) h).2).2).
Proof.
  unfold generateBloodPressureDataset, generateAllCombinations.
  pose proof (alloc_contents (enumerate config now) h) as Hc.
  destruct (alloc (enumerate config now) h) as [a h1]. cbn [fst snd] in *.
  rewrite Hc, enumerate_length, Z.eqb_refl. cbn [negb].
  by destruct (shuffleArray rnd a h1).
Qed.

(** Names the result and the final heap of a run. *)
Ltac generated Hgen :=
  rewrite generateBloodPressureDataset_run in Hgen;
  let Hres := fresh "Hres" in
  let Hheap := fresh "Hheap" in
  pose proof (f_equal fst Hgen) as Hres;
  pose proof (f_equal snd Hgen) as Hheap;
  cbn [fst snd] in Hres, Hheap; clear Hgen; subst.

(** The dataset returned is a rearrangement of the enumeration. *)
Lemma generateBloodPressureDataset_contents config now rnd h res h' ds :
  unit_interval rnd →
  generateBloodPressureDataset config now rnd h = (res, h') →
  DatasetResult.dataset res = Some ds →
  contents h' ds ≡ₚ enumerate config now.
Proof.
  intros Hrnd Hgen Hds. generated Hgen.
  cbn [DatasetResult.dataset] in Hds. injection Hds as <-.
  rewrite shuffleArray_contents by done.
  by rewrite alloc_contents.
Qed.

(** The enumeration does not depend on the time except in the
    timestamps: with no admissible pair it is empty. *)
Lemma enumerate_nil config now :
  brute_force_count config = 0 → enumerate config now = [].
Proof.
  rewrite <- calculateExpectedCombinations_brute_force.
  rewrite <- (enumerate_length config now).
  destruct (enumerate config now); [done | cbn; lia].
Qed.

(** C1. On success [generateBloodPressureDataset] returns a dataset whose
    length is the count that the double loop over the configured ranges
    recomputes (the pairs of the ranges that pass the pulse-pressure
    predicate), and for the built-in configuration that count is 1161. *)
Theorem generateBloodPressureDataset_length :
  ∀ config now rnd h res h',
    unit_interval rnd →
    generateBloodPressureDataset config now rnd h = (res, h') →
    DatasetResult.success res = true →
    (∃ ds, DatasetResult.dataset res = Some ds
           ∧ Z.of_nat (length (contents h' ds))
             = calculateExpectedCombinations config
           ∧ Z.of_nat (length (contents h' ds)) = brute_force_count config)
    ∧ calculateExpectedCombinations CONFIG = 1161
    ∧ brute_force_count CONFIG = 1161.
Proof.
  intros config now rnd h res h' Hrnd Hgen _.
  split; [|split; vm_compute; reflexivity].
  assert (∃ ds, DatasetResult.dataset res = Some ds) as [ds Hds].
  { pose proof Hgen as Hrun. generated Hrun. by eexists. }
  exists ds. split; [done|].
  rewrite <- calculateExpectedCombinations_brute_force.
  rewrite <- (enumerate_length config now).
  by rewrite (generateBloodPressureDataset_contents _ _ _ _ _ _ _ Hrnd Hgen Hds).
Qed.

(** C5. Every reading of a dataset that [generateBloodPressureDataset]
    returns passes [validateReading]. *)
Theorem generated_readings_validate :
  ∀ config now rnd h res h' ds r,
    unit_interval rnd →
    generateBloodPressureDataset config now rnd h = (res, h') →
    DatasetResult.success res = true →
    DatasetResult.dataset res = Some ds →
    r ∈ contents h' ds →
    validateReading config (obj r) = true.
Proof.
  intros config now rnd h res h' ds r Hrnd Hgen _ Hds Hr.
  rewrite (generateBloodPressureDataset_contents _ _ _ _ _ _ _ Hrnd Hgen Hds)
    in Hr.
  pose proof (enumerate_valid config now) as Hvalid.
  rewrite Forall_forall in Hvalid. by apply Hvalid.
Qed.

(** C3, as the program has it.  When no pair of the configured ranges
    passes the pulse-pressure predicate, [generateBloodPressureDataset]
    returns a successful result that carries an empty dataset. *)
Theorem generateBloodPressureDataset_no_pairs :
  ∀ config now rnd h,
    brute_force_count config = 0 →
    ∃ ds h',
      generateBloodPressureDataset config now rnd h
      = (DatasetResult.mk true (Some ds) None, h')
      ∧ contents h' ds = [].
Proof.
  intros config now rnd h Hcount.
  rewrite generateBloodPressureDataset_run. do 2 eexists.
  split; [reflexivity|].
  rewrite (enumerate_nil config now Hcount).
  unfold shuffleArray.
  pose proof (alloc_contents [] h) as Hc.
  destruct (alloc [] h) as [a h1]. cbn [fst snd] in *. rewrite Hc.
  pose proof (alloc_contents (@nil BloodPressureReading) h1) as Hc1.
  destruct (alloc [] h1) as [s h2]. cbn [fst snd] in *.
  rewrite Hc1. cbn. exact Hc1.
Qed.

(** C10. The two loops apply one predicate over the same ranges, so the
    array built has the recomputed count, and under the built-in
    configuration [generateBloodPressureDataset] returns success for every
    base timestamp, every sequence of draws and every heap. *)
Theorem generateBloodPressureDataset_succeeds :
  (∀ config now,
     Z.of_nat (length (enumerate config now))
     = calculateExpectedCombinations config)
  ∧ ∀ now rnd h,
      ∃ ds h',
        generateBloodPressureDataset CONFIG now rnd h
        = (DatasetResult.mk true (Some ds) None, h').
Proof.
  split; [apply enumerate_length|].
  intros now rnd h. rewrite generateBloodPressureDataset_run. by do 2 eexists.
Qed.

(** C6. [shuffleArray] returns a permutation of its input: whatever the
    draws, the returned array has the elements of the input with their
    multiplicities, hence the same length and, under any projection (such
    as a reading's pair of pressures), the same multiset of images. *)
Theorem shuffleArray_permutation :
  ∀ (T : Type) (rnd : nat → Q) (array : ArrayRef) (h : Heap T),
    unit_interval rnd →
    contents (shuffleArray rnd array h).2 (shuffleArray rnd array h).1
    ≡ₚ contents h array
    ∧ length (contents (shuffleArray rnd array h).2 (shuffleArray rnd array h).1)
      = length (contents h array)
    ∧ ∀ (U : Type) (f : T → U),
        f <$> contents (shuffleArray rnd array h).2 (shuffleArray rnd array h).1
        ≡ₚ f <$> contents h array.
Proof.
  intros T rnd array h Hrnd.
  pose proof (shuffleArray_contents rnd array h Hrnd) as Hperm.
  split; [done|]. split; [by apply Permutation_length|].
  intros U f. by apply fmap_Permutation.
Qed.

(** C9. [shuffleArray] does not mutate its input: the array passed in
    holds the same elements in the same order afterwards, the returned
    array is a new object, and nothing else in the heap changes.  So the
    sequence enumerated by [generateBloodPressureDataset] is still there,
    in enumeration order, when the function returns. *)
Theorem shuffleArray_input_unchanged :
  (∀ (T : Type) (rnd : nat → Q) (array : ArrayRef) (h : Heap T),
     contents (shuffleArray rnd array h).2 array = contents h array
     ∧ ((shuffleArray rnd array h).1 ∉ dom h)
     ∧ delete (shuffleArray rnd array h).1 (shuffleArray rnd array h).2 = h)
  ∧ ∀ config now rnd h,
      contents (generateBloodPressureDataset config now rnd h).2
        (generateAllCombinations config now h).1
      = enumerate config now.
Proof.
  split.
  - intros T rnd array h. split; [apply shuffleArray_input|].
    split; [apply shuffleArray_fresh | apply shuffleArray_frame].
  - intros config now rnd h. rewrite generateBloodPressureDataset_run.
    unfold generateAllCombinations. cbn [snd].
    rewrite shuffleArray_input. apply alloc_contents.
Qed.

(** ** Reading at an index *)

Lemma getReadingAtIndex_nonnegative dataset i :
  dataset ≠ [] → 0 ≤ i →
  ∃ r, dataset !! Z.to_nat (i mod Z.of_nat (length dataset)) = Some r
       ∧ getReadingAtIndex (obj dataset) i = obj r.
Proof.
  intros Hne Hi.
  assert (Hlen : 0 < Z.of_nat (length dataset))
    by (destruct dataset; [done | cbn; lia]).
  unfold getReadingAtIndex.
  destruct (Nat.eqb_spec (length dataset) 0) as [H0|_]; [lia|].
  rewrite Z.rem_mod_nonneg by lia.
  pose proof (Z.mod_pos_bound i _ Hlen) as Hb.
  destruct (index_in_range dataset _ Hb) as [r Hr].
  exists r. split; [by apply index_obj in Hr as [_ Hr] | done].
Qed.

(** A negative cursor that is not a multiple of the length selects no
    element: the remainder keeps the sign of the cursor. *)
Lemma getReadingAtIndex_negative dataset i :
  dataset ≠ [] → i < 0 → Z.rem i (Z.of_nat (length dataset)) ≠ 0 →
  getReadingAtIndex (obj dataset) i = undefined.
Proof.
  intros Hne Hi Hrem. unfold getReadingAtIndex.
  destruct (Nat.eqb_spec (length dataset) 0) as [H0|Hlen];
    [by destruct dataset|].
  pose proof (Z.rem_nonpos i (Z.of_nat (length dataset))
                ltac:(lia) ltac:(lia)) as Hle.
  unfold index.
  destruct (Z.ltb_spec (Z.rem i (Z.of_nat (length dataset))) 0); [done | lia].
Qed.

(** C2, as the program has it.  For a dataset that is not empty and a
    cursor that is not negative, [getReadingAtIndex] returns the reading
    at position [i mod length], never an absent value, and a cursor moved
    by a multiple of the length to another position that is not negative
    gives the same reading. *)
Theorem getReadingAtIndex_wraparound :
  ∀ (dataset : list BloodPressureReading) (i k : Z),
    dataset ≠ [] →
    0 ≤ i →
    0 ≤ i + k * Z.of_nat (length dataset) →
    getReadingAtIndex (obj dataset) i
    = getReadingAtIndex (obj dataset) (i + k * Z.of_nat (length dataset))
    ∧ ∃ r, dataset !! Z.to_nat (i mod Z.of_nat (length dataset)) = Some r
           ∧ getReadingAtIndex (obj dataset) i = obj r.
Proof.
  intros dataset i k Hne Hi Hik.
  destruct (getReadingAtIndex_nonnegative dataset i Hne Hi) as (r & Hr & Hget).
  destruct (getReadingAtIndex_nonnegative dataset _ Hne Hik)
    as (r' & Hr' & Hget').
  split; [|by exists r].
  rewrite Z.mod_add in Hr' by (destruct dataset; [done | cbn; lia]).
  congruence.
Qed.

(** ** The storage manager *)

Lemma with_items_with_items h m1 m2 :
  with_items (with_items h m1) m2 = with_items h m2.
Proof. reflexivity. Qed.

(** What the probe does: it answers [false] without a trace when
    persistence is missing, and otherwise leaves the store without the
    probe key. *)
Lemma isLocalStorageAvailable_spec h :
  isLocalStorageAvailable h
  = if window_defined h then
      match localStorage_denied h with
      | Some _ => (Normal false, h)
      | None =>
          match setItem_throws h (items h) probe_key probe_key with
          | Some _ => (Normal false, h)
          | None => (Normal true, with_items h (delete probe_key (items h)))
          end
      end
    else (Normal false, h).
Proof.
  unfold isLocalStorageAvailable, try_catch, bind, typeof_window_undefined,
    localStorage_setItem, localStorage_removeItem, localStorage, bind, ret.
  destruct (window_defined h) eqn:Hw; cbn; [|done].
  destruct (localStorage_denied h) eqn:Hd; cbn; [done|].
  destruct (setItem_throws h (items h) probe_key probe_key) eqn:Hs; cbn;
    [done|].
  rewrite Hd. cbn. by rewrite delete_insert_eq.
Qed.

Lemma isLocalStorageAvailable_unavailable h :
  unavailable h → isLocalStorageAvailable h = (Normal false, h).
Proof.
  intros Hun. rewrite isLocalStorageAvailable_spec.
  destruct (window_defined h) eqn:Hw; [|done].
  destruct (localStorage_denied h) as [e|] eqn:Hd; [done|].
  destruct (setItem_throws h (items h) probe_key probe_key) eqn:Hs; [done|].
  destruct Hun as [Hun|[[x Hun]|[x Hun]]]; congruence.
Qed.

Lemma isLocalStorageAvailable_true h h' :
  isLocalStorageAvailable h = (Normal true, h') →
  localStorage_denied h = None
  ∧ h' = with_items h (delete probe_key (items h)).
Proof.
  rewrite isLocalStorageAvailable_spec.
  destruct (window_defined h); [|done].
  destruct (localStorage_denied h); [done|].
  destruct (setItem_throws h (items h) probe_key probe_key); [done|].
  intros [= <-]. done.
Qed.

(** The probe never throws. *)
Lemma isLocalStorageAvailable_normal h :
  ∃ b, (isLocalStorageAvailable h).1 = Normal b.
Proof.
  rewrite isLocalStorageAvailable_spec.
  destruct (window_defined h); [|by eexists].
  destruct (localStorage_denied h); [by eexists|].
  destruct (setItem_throws h (items h) probe_key probe_key); by eexists.
Qed.

Lemma bind_normal {A B} (c : JS A) (k : A → JS B) h a h' :
  c h = (Normal a, h') → bind c k h = k a h'.
Proof. intros Hc. unfold bind. by rewrite Hc. Qed.

(** C8. When persistence is absent or unavailable, every store and get
    operation and [clearStorage] return (they do not throw) a
    [STORAGE_ERROR] whose message says that [localStorage] is not
    available, [isAppInitialized] returns [false], and the host is left
    as it was. *)
Theorem unavailable_storage :
  ∀ (h : Host) (dataset : list BloodPressureReading) (index timestamp : Z),
    unavailable h →
    storeDataset dataset h = (Normal not_available, h)
    ∧ getDataset h = (Normal not_available, h)
    ∧ storeCurrentIndex index h = (Normal not_available, h)
    ∧ getCurrentIndex h = (Normal not_available, h)
    ∧ storeTimestamp timestamp h = (Normal not_available, h)
    ∧ getTimestamp h = (Normal not_available, h)
    ∧ clearStorage h = (Normal not_available, h)
    ∧ isAppInitialized h = (Normal false, h)
    ∧ ∀ T : Type,
        StorageResult.success (@not_available T) = false
        ∧ type <$> StorageResult.error (@not_available T) = Some STORAGE_ERROR
        ∧ message <$> StorageResult.error (@not_available T)
          = Some (jsstr "localStorage is not available").
Proof.
  intros h dataset index timestamp Hun.
  pose proof (isLocalStorageAvailable_unavailable h Hun) as Hprobe.
  unfold storeDataset, getDataset, storeCurrentIndex, getCurrentIndex,
    storeTimestamp, getTimestamp, clearStorage, isAppInitialized.
  repeat split; try (by rewrite (bind_normal _ _ _ _ _ Hprobe)).
Qed.

Lemma key_index_not_probe : key_index STORAGE_KEYS ≠ probe_key.
Proof. intros H. vm_compute in H. discriminate. Qed.

Lemma key_dataset_not_probe : key_dataset STORAGE_KEYS ≠ probe_key.
Proof. intros H. vm_compute in H. discriminate. Qed.

(** [parseInt] gives [NaN] exactly when no digit follows the leading
    white space and the optional sign. *)
Lemma parseInt_NaN text :
  parseInt text = None
  ↔ match after_sign (trimStart text) with
    | c :: _ => isDigit c = false
    | [] => True
    end.
Proof.
  unfold parseInt.
  generalize (sign_of (trimStart text)) (after_sign (trimStart text)).
  intros sign [|c s]; cbn [span_digits]; [done|].
  destruct (isDigit c); [|done]. by destruct (span_digits s).
Qed.

(** What [getCurrentIndex] returns when the probe succeeds. *)
Lemma getCurrentIndex_available h :
  (isLocalStorageAvailable h).1 = Normal true →
  getCurrentIndex h
  = (Normal
       match items h !! key_index STORAGE_KEYS with
       | None =>
           failed (createStorageError (jsstr "No index found in storage") None)
       | Some indexString =>
           match parseInt indexString with
           | None =>
               failed (createStorageError
                         (jsstr "Invalid index format in storage") None)
           | Some index => succeeded (Some index)
           end
       end,
     with_items h (delete probe_key (items h))).
Proof.
  intros Hprobe.
  destruct (isLocalStorageAvailable h) as [c h'] eqn:Hrun.
  cbn in Hprobe. subst c.
  destruct (isLocalStorageAvailable_true h h' Hrun) as [Hd ->].
  unfold getCurrentIndex. rewrite (bind_normal _ _ _ _ _ Hrun).
  unfold try_catch, bind, localStorage_getItem, localStorage, bind.
  cbn [negb].
  change (localStorage_denied (with_items h ?m)) with (localStorage_denied h).
  rewrite Hd. change (items (with_items h ?m)) with m.
  rewrite lookup_delete_ne by (apply not_eq_sym, key_index_not_probe).
  destruct (items h !! key_index STORAGE_KEYS) as [text|]; [|done].
  by destruct (parseInt text).
Qed.


(** ** Printing and reading numbers *)

Lemma digits_value_snoc ds c :
  digits_value (ds ++ [c]) = (10 * digits_value ds + (c - 48))%N.
Proof. unfold digits_value. by rewrite foldl_app. Qed.

Lemma isDigit_spec c : isDigit c = true ↔ (48 ≤ c ≤ 57)%N.
Proof.
  unfold isDigit. rewrite andb_true_iff, !N.leb_le. done.
Qed.

Lemma digits_fuel_S fuel n acc :
  digits_fuel (S fuel) n acc
  = if (n / 10 =? 0)%N then (48 + n mod 10)%N :: acc
    else digits_fuel fuel (n / 10)%N ((48 + n mod 10)%N :: acc).
Proof. reflexivity. Qed.

(** The digits printed for [n]: digits only, no leading zero, and they
    denote [n]. *)
Lemma digits_fuel_spec fuel n acc :
  (n < 2 ^ N.of_nat (S fuel))%N →
  ∃ d ds,
    digits_fuel (S fuel) n acc = d :: ds ++ acc
    ∧ Forall (fun c => isDigit c = true) (d :: ds)
    ∧ digits_value (d :: ds) = n
    ∧ (d = 48%N → n = 0%N ∧ ds = []).
Proof.
  revert n acc. induction fuel as [|fuel IH]; intros n acc Hn.
  - change (n < 2)%N in Hn.
    assert (n / 10 = 0)%N as Hq by (apply N.div_small; lia).
    assert (n mod 10 = n)%N as Hm by (apply N.mod_small; lia).
    rewrite digits_fuel_S, Hq, Hm. cbn [N.eqb].
    exists (48 + n)%N, []. split; [done|].
    split; [|split].
    + constructor; [|done]. apply isDigit_spec. lia.
    + unfold digits_value. cbn. lia.
    + intros H48. split; [lia|done].
  - rewrite digits_fuel_S.
    destruct (N.eqb_spec (n / 10) 0) as [Hq|Hq].
    + exists (48 + n mod 10)%N, []. split; [done|].
      assert (n < 10)%N by (apply N.div_small_iff in Hq; lia).
      rewrite N.mod_small by done.
      split; [|split].
      * constructor; [|done]. apply isDigit_spec. lia.
      * unfold digits_value. cbn. lia.
      * intros H48. split; [lia|done].
    + destruct (IH (n / 10)%N ((48 + n mod 10)%N :: acc))
        as (d & ds & Hrun & Hdig & Hval & Hzero).
      { rewrite Nat2N.inj_succ, N.pow_succ_r' in Hn.
        apply N.Div0.div_lt_upper_bound.
        set (X := (2 ^ N.of_nat (S fuel))%N) in *. clearbody X. lia. }
      exists d, (ds ++ [(48 + n mod 10)%N]).
      split; [|split; [|split]].
      * rewrite Hrun. by rewrite <- app_assoc.
      * rewrite app_comm_cons. apply Forall_app. split; [done|].
        constructor; [|done]. apply isDigit_spec.
        pose proof (N.mod_upper_bound n 10 ltac:(lia)) as Hm.
        revert Hm. generalize (n mod 10)%N. clear. intros r Hr. lia.
      * rewrite app_comm_cons, digits_value_snoc, Hval.
        pose proof (N.div_mod' n 10) as Hdm.
        revert Hdm. generalize (n mod 10)%N (n / 10)%N. clear.
        intros r q Hdm. lia.
      * intros H48. destruct (Hzero H48) as [H0 _]. done.
Qed.

Lemma digits_spec n :
  ∃ d ds,
    digits n = d :: ds
    ∧ Forall (fun c => isDigit c = true) (d :: ds)
    ∧ digits_value (d :: ds) = n
    ∧ (d = 48%N → n = 0%N ∧ ds = []).
Proof.
  unfold digits.
  destruct (digits_fuel_spec (N.to_nat (N.log2 n)) n [])
    as (d & ds & Hrun & Hrest).
  - rewrite Nat2N.inj_succ, N2Nat.id.
    destruct (N.eq_dec n 0%N) as [->|Hn]; [done|].
    apply N.log2_spec. lia.
  - exists d, ds. by rewrite Hrun, app_nil_r.
Qed.

Lemma span_digits_app ds c rest :
  Forall (fun c => isDigit c = true) ds →
  isDigit c = false →
  span_digits (ds ++ c :: rest) = (ds, c :: rest).
Proof.
  intros Hds Hc. induction Hds as [|d ds Hd Hds IH]; cbn.
  - by rewrite Hc.
  - by rewrite Hd, IH.
Qed.

Lemma decimal_value_integer m : decimal_value m 0 = inject_Z m.
Proof.
  unfold decimal_value. etransitivity; [|apply inject_Z_Qred].
  apply Qred_complete. cbn [Qpower]. apply Qmult_1_r.
Qed.

(** What [Number_toString] prints starts with a digit or a minus sign and
    reads back as the number, when a comma or a closing brace follows. *)
Lemma parse_number_toString z c rest :
  c = 44%N ∨ c = 125%N →
  ∃ x xs,
    Number_toString z = x :: xs
    ∧ (x = 45%N ∨ isDigit x = true)
    ∧ parse_number (Number_toString z ++ c :: rest)
      = Some (inject_Z z, c :: rest).
Proof.
  intros Hc.
  assert (Hnd : isDigit c = false) by (by destruct Hc as [->| ->]).
  unfold Number_toString.
  destruct (Z.ltb_spec z 0) as [Hz|Hz].
  - destruct (digits_spec (Z.to_N (- z))) as (d & ds & Hdig & Hall & Hval & Hzero).
    exists 45%N, (digits (Z.to_N (- z))). split; [done|]. split; [by left|].
    rewrite Hdig. unfold parse_number. cbn [app starts_with N.eqb Pos.eqb].
    change (d :: ds ++ c :: rest) with ((d :: ds) ++ c :: rest).
    rewrite (span_digits_app (d :: ds) c rest Hall Hnd).
    assert (Hd : (d =? 48)%N = false).
    { apply N.eqb_neq. intros H48. destruct (Hzero H48). lia. }
    rewrite Hd.
    destruct Hc as [-> | ->];
      cbn [parse_frac parse_exp starts_with N.eqb Pos.eqb orb length Z.of_nat];
      rewrite app_nil_r, Hval; change (0 - 0) with 0;
      rewrite decimal_value_integer; do 3 f_equal; lia.
  - destruct (digits_spec (Z.to_N z)) as (d & ds & Hdig & Hall & Hval & Hzero).
    exists d, ds. split; [done|].
    assert (Hd : isDigit d = true) by (by inversion Hall).
    split; [by right|].
    rewrite Hdig. unfold parse_number. cbn [app starts_with].
    assert (H45 : (d =? 45)%N = false).
    { apply N.eqb_neq. apply isDigit_spec in Hd. lia. }
    rewrite H45.
    change (d :: ds ++ c :: rest) with ((d :: ds) ++ c :: rest).
    rewrite (span_digits_app (d :: ds) c rest Hall Hnd).
    destruct (N.eqb_spec d 48%N) as [H48|_];
      [destruct (Hzero H48) as [_ ->]; cbn [app]|];
    destruct Hc as [-> | ->];
      cbn [parse_frac parse_exp starts_with N.eqb Pos.eqb orb length Z.of_nat];
      rewrite ?app_nil_r; cbn [app]; rewrite Hval; change (0 - 0) with 0;
      rewrite decimal_value_integer; do 3 f_equal; lia.
Qed.

(** ** Reading back a stored dataset *)

Lemma parse_value_number fuel z c rest :
  c = 44%N ∨ c = 125%N →
  parse_value (S fuel) (Number_toString z ++ c :: rest)
  = Some (JNumber (inject_Z z), c :: rest).
Proof.
  intros Hc.
  destruct (parse_number_toString z c rest Hc) as (x & xs & Hts & Hx & Hparse).
  rewrite Hts in *. cbn [parse_value app].
  assert (Htests : isJsonWhiteSpace x = false
                   ∧ (x =? 123)%N = false ∧ (x =? 91)%N = false
                   ∧ (x =? 34)%N = false ∧ (x =? 116)%N = false
                   ∧ (x =? 102)%N = false ∧ (x =? 110)%N = false).
  { destruct Hx as [->|Hx]; [done|].
    apply isDigit_spec in Hx. unfold isJsonWhiteSpace.
    rewrite !orb_false_iff, !N.eqb_neq. lia. }
  destruct Htests as (Hws & H1 & H2 & H3 & H4 & H5 & H6).
  cbn [skip_ws]. rewrite Hws, H1, H2, H3, H4, H5, H6.
  cbn [app] in Hparse. by rewrite Hparse.
Qed.

Lemma parse_string_chars_plain key rest :
  Forall (fun c => plain_char c = true) key →
  parse_string_chars (key ++ 34%N :: rest) = Some (key, rest).
Proof.
  induction 1 as [|c key Hc Hkey IH]; [done|].
  cbn [app parse_string_chars]. unfold plain_char in Hc.
  rewrite !andb_true_iff, !negb_true_iff in Hc.
  destruct Hc as [[Hlow Hquote] Hback].
  by rewrite Hquote, Hback, Hlow, IH.
Qed.

Lemma parse_members_more fuel key z rest acc :
  Forall (fun c => plain_char c = true) key →
  parse_members (S (S fuel))
    (34%N :: key ++ 34%N :: 58%N :: Number_toString z ++ 44%N :: rest) acc
  = parse_members (S fuel) rest (<[key := JNumber (inject_Z z)]> acc).
Proof.
  intros Hkey.
  cbn [parse_members skip_ws starts_with isJsonWhiteSpace N.eqb Pos.eqb orb].
  rewrite (parse_string_chars_plain key _ Hkey).
  cbn [skip_ws starts_with isJsonWhiteSpace N.eqb Pos.eqb orb].
  rewrite (parse_value_number fuel z 44 rest) by (by left).
  reflexivity.
Qed.

Lemma parse_members_last fuel key z rest acc :
  Forall (fun c => plain_char c = true) key →
  parse_members (S (S fuel))
    (34%N :: key ++ 34%N :: 58%N :: Number_toString z ++ 125%N :: rest) acc
  = Some (JObject (<[key := JNumber (inject_Z z)]> acc), rest).
Proof.
  intros Hkey.
  cbn [parse_members skip_ws starts_with isJsonWhiteSpace N.eqb Pos.eqb orb].
  rewrite (parse_string_chars_plain key _ Hkey).
  cbn [skip_ws starts_with isJsonWhiteSpace N.eqb Pos.eqb orb].
  rewrite (parse_value_number fuel z 125 rest) by (by right).
  reflexivity.
Qed.

Lemma plain_keys :
  Forall (fun c => plain_char c = true) (jsstr "systolic")
  ∧ Forall (fun c => plain_char c = true) (jsstr "diastolic")
  ∧ Forall (fun c => plain_char c = true) (jsstr "timestamp").
Proof. vm_compute. repeat constructor. Qed.

(** The text printed for a reading reads back as the reading. *)
Lemma parse_value_reading fuel r rest :
  (5 ≤ fuel)%nat →
  parse_value fuel (stringify_reading r ++ rest)
  = Some (reading_value r, rest).
Proof.
  intros Hfuel.
  do 5 (destruct fuel as [|fuel]; [lia|]). clear Hfuel.
  destruct plain_keys as (Hs & Hd & Ht).
  unfold stringify_reading, stringify_member, quoted.
  rewrite <- !app_assoc. cbn [app].
  cbn [parse_value skip_ws starts_with isJsonWhiteSpace N.eqb Pos.eqb orb].
  rewrite (parse_members_more _ _ _ _ _ Hs).
  rewrite (parse_members_more _ _ _ _ _ Hd).
  by rewrite (parse_members_last _ _ _ _ _ Ht).
Qed.

Lemma join_comma_cons x y ys :
  join_comma (x :: y :: ys) = x ++ 44%N :: join_comma (y :: ys).
Proof. reflexivity. Qed.

(** The elements of a stored array read back one by one. *)
Lemma parse_elements_readings d r fuel acc rest :
  (length d + 6 ≤ fuel)%nat →
  parse_elements fuel
    (join_comma (stringify_reading <$> (r :: d)) ++ 93%N :: rest) acc
  = Some (JArray (acc ++ (reading_value <$> (r :: d))), rest).
Proof.
  revert r fuel acc. induction d as [|r' d IH]; intros r fuel acc Hfuel.
  - destruct fuel as [|fuel]; [cbn in Hfuel; lia|].
    cbn [fmap list_fmap join_comma parse_elements].
    rewrite parse_value_reading by (cbn in Hfuel; lia).
    reflexivity.
  - destruct fuel as [|fuel]; [cbn in Hfuel; lia|].
    rewrite !fmap_cons, join_comma_cons, <- app_assoc.
    cbn [parse_elements app].
    rewrite parse_value_reading by (cbn in Hfuel; lia).
    cbn [skip_ws isJsonWhiteSpace N.eqb Pos.eqb orb].
    rewrite <- fmap_cons.
    rewrite IH by (cbn in Hfuel; lia).
    by rewrite <- app_assoc.
Qed.

Lemma join_comma_length (xs : list JsString) :
  Forall (fun x => x ≠ []) xs → (length xs ≤ length (join_comma xs))%nat.
Proof.
  induction 1 as [|x xs Hx Hxs IH]; [done|].
  destruct xs as [|y ys].
  - destruct x; [done | cbn; lia].
  - rewrite join_comma_cons, length_app. cbn [length] in *.
    unfold JsString in *. lia.
Qed.

(** [JSON.parse] undoes [JSON.stringify] on datasets. *)
Lemma JSON_parse_stringify d :
  JSON_parse (JSON_stringify d) = Some (dataset_value d).
Proof.
  destruct d as [|r d]; [reflexivity|].
  unfold JSON_parse, JSON_stringify, dataset_value.
  set (body := join_comma (stringify_reading <$> (r :: d))).
  assert (Hlen : (length (r :: d) ≤ length body)%nat).
  { unfold body. etransitivity; [|apply join_comma_length].
    - by rewrite length_fmap.
    - apply Forall_fmap, Forall_true. intros r0. done. }
  assert (Hhead : ∃ t, body = 123%N :: t).
  { unfold body. destruct d; cbn; by eexists. }
  pose proof (parse_elements_readings d r (2 * length body + 5) [] [])
    as Hparse.
  fold body in Hparse. cbn [length] in Hlen.
  specialize (Hparse ltac:(lia)).
  cbn [app]. rewrite length_cons, length_app. cbn [length].
  replace (2 * S (length body + 1) + 2)%nat
    with (S (2 * length body + 5))%nat by lia.
  cbn [parse_value skip_ws isJsonWhiteSpace N.eqb Pos.eqb orb].
  rewrite Hparse. destruct Hhead as [t ->].
  reflexivity.
Qed.

(** ** The fuel of the JSON parser *)

Lemma skip_ws_length s : (length (skip_ws s) ≤ length s)%nat.
Proof.
  induction s as [|c s IH]; [done|]. cbn.
  destruct (isJsonWhiteSpace c); cbn; lia.
Qed.

Lemma starts_with_length c s s' :
  starts_with c s = Some s' → length s = S (length s').
Proof.
  destruct s as [|d s]; [done|]. cbn.
  destruct (d =? c)%N; [|done]. by intros [= ->].
Qed.

Lemma span_digits_length s :
  (length (span_digits s).1 + length (span_digits s).2 = length s)%nat.
Proof.
  induction s as [|c s IH]; [done|]. cbn.
  destruct (isDigit c); [|done].
  destruct (span_digits s). cbn in *. lia.
Qed.

Lemma after_sign_length s : (length (after_sign s) ≤ length s)%nat.
Proof.
  destruct s as [|c s]; [done|]. cbn.
  destruct ((c =? 43) || (c =? 45))%N; cbn; lia.
Qed.

Lemma strip_prefix_length lit s rest :
  strip_prefix lit s = Some rest →
  (length rest + length lit = length s)%nat.
Proof.
  revert s. induction lit as [|c lit IH]; intros s; cbn.
  - intros [= ->]. lia.
  - destruct s as [|d s]; [done|].
    destruct (c =? d)%N; [|done]. intros H. apply IH in H. cbn. lia.
Qed.

(** A string literal takes at least its closing quote. *)
Lemma parse_string_chars_length s cs rest :
  parse_string_chars s = Some (cs, rest) → (length rest < length s)%nat.
Proof.
  remember (length s) as n eqn:Hn. revert s cs rest Hn.
  induction n as [n IH] using lt_wf_ind. intros s cs rest -> Hparse.
  destruct s as [|c s]; [done|]. cbn [parse_string_chars length] in *.
  destruct (c =? 34)%N.
  { injection Hparse as _ <-. lia. }
  destruct (c =? 92)%N.
  - destruct s as [|e s1]; [done|].
    destruct (e =? 117)%N.
    + destruct s1 as [|a [|b [|c' [|d s2]]]]; try done.
      destruct (hex_value a), (hex_value b), (hex_value c'), (hex_value d);
        try done.
      destruct (parse_string_chars s2) as [[cs' rest']|] eqn:Hrec; [|done].
      injection Hparse as _ <-.
      pose proof (IH (length s2) ltac:(cbn; lia) s2 cs' rest' eq_refl Hrec).
      cbn. lia.
    + destruct (unescape e); [|done].
      destruct (parse_string_chars s1) as [[cs' rest']|] eqn:Hrec; [|done].
      injection Hparse as _ <-.
      pose proof (IH (length s1) ltac:(cbn; lia) s1 cs' rest' eq_refl Hrec).
      cbn. lia.
  - destruct (c <? 32)%N; [done|].
    destruct (parse_string_chars s) as [[cs' rest']|] eqn:Hrec; [|done].
    injection Hparse as _ <-.
    pose proof (IH (length s) ltac:(lia) s cs' rest' eq_refl Hrec). lia.
Qed.

Lemma parse_frac_length s frac rest :
  parse_frac s = Some (frac, rest) → (length rest ≤ length s)%nat.
Proof.
  unfold parse_frac.
  destruct (starts_with 46 s) as [s1|] eqn:Hdot.
  - apply starts_with_length in Hdot.
    pose proof (span_digits_length s1) as Hspan.
    destruct (span_digits s1) as [[|d ds] s2]; [done|].
    intros [= _ <-]. cbn in Hspan. lia.
  - intros [= _ <-]. lia.
Qed.

Lemma parse_exp_length s e rest :
  parse_exp s = Some (e, rest) → (length rest ≤ length s)%nat.
Proof.
  unfold parse_exp. destruct s as [|c s1]; [by intros [= _ <-]|].
  destruct ((c =? 101) || (c =? 69))%N.
  - pose proof (span_digits_length (after_sign s1)) as Hspan.
    pose proof (after_sign_length s1) as Hsign.
    destruct (span_digits (after_sign s1)) as [[|d ds] s2]; [done|].
    intros [= _ <-]. cbn in *. lia.
  - intros [= _ <-]. lia.
Qed.

(** A number takes at least one digit. *)
Lemma parse_number_length s q rest :
  parse_number s = Some (q, rest) → (length rest < length s)%nat.
Proof.
  unfold parse_number.
  assert (Hsign : ∃ sign s0,
            (match starts_with 45 s with
             | Some s' => (-1, s')
             | None => (1, s)
             end) = (sign, s0) ∧ (length s0 ≤ length s)%nat).
  { destruct (starts_with 45 s) as [s'|] eqn:Hm.
    - apply starts_with_length in Hm. exists (-1), s'. split; [done | lia].
    - by exists 1, s. }
  destruct Hsign as (sign & s0 & -> & Hs0).
  pose proof (span_digits_length s0) as Hspan.
  destruct (span_digits s0) as [[|d ds] s1]; [done|]. cbn [fst snd] in Hspan.
  destruct (d =? 48)%N;
    (destruct (parse_frac _) as [[frac s2]|] eqn:Hfrac; [|done]);
    (destruct (parse_exp s2) as [[e s3]|] eqn:Hexp; [|done]);
    intros [= _ <-];
    apply parse_frac_length in Hfrac; apply parse_exp_length in Hexp;
    rewrite ?length_app in Hfrac; cbn [length] in *; lia.
Qed.

Lemma parse_value_S fuel s :
  parse_value (S fuel) s
  = match skip_ws s with
    | [] => None
    | c :: rest =>
        if (c =? 123)%N then
          match starts_with 125 (skip_ws rest) with
          | Some rest' => Some (JObject ∅, rest')
          | None => parse_members fuel rest ∅
          end
        else if (c =? 91)%N then
          match starts_with 93 (skip_ws rest) with
          | Some rest' => Some (JArray [], rest')
          | None => parse_elements fuel rest []
          end
        else if (c =? 34)%N then
          match parse_string_chars rest with
          | Some (cs, rest') => Some (JString cs, rest')
          | None => None
          end
        else if (c =? 116)%N then
          match strip_prefix (jsstr "true") (c :: rest) with
          | Some rest' => Some (JBool true, rest')
          | None => None
          end
        else if (c =? 102)%N then
          match strip_prefix (jsstr "false") (c :: rest) with
          | Some rest' => Some (JBool false, rest')
          | None => None
          end
        else if (c =? 110)%N then
          match strip_prefix (jsstr "null") (c :: rest) with
          | Some rest' => Some (JNull, rest')
          | None => None
          end
        else
          match parse_number (c :: rest) with
          | Some (q, rest') => Some (JNumber q, rest')
          | None => None
          end
    end.
Proof. reflexivity. Qed.

Lemma parse_elements_S fuel s acc :
  parse_elements (S fuel) s acc
  = match parse_value fuel s with
    | Some (v, rest) =>
        match skip_ws rest with
        | c :: rest' =>
            if (c =? 44)%N then parse_elements fuel rest' (acc ++ [v])
            else if (c =? 93)%N then Some (JArray (acc ++ [v]), rest')
            else None
        | [] => None
        end
    | None => None
    end.
Proof. reflexivity. Qed.

Lemma parse_members_S fuel s acc :
  parse_members (S fuel) s acc
  = match starts_with 34 (skip_ws s) with
    | Some s1 =>
        match parse_string_chars s1 with
        | Some (key, s2) =>
            match starts_with 58 (skip_ws s2) with
            | Some s3 =>
                match parse_value fuel s3 with
                | Some (v, rest) =>
                    match skip_ws rest with
                    | c :: rest' =>
                        if (c =? 44)%N then
                          parse_members fuel rest' (<[key := v]> acc)
                        else if (c =? 125)%N then
                          Some (JObject (<[key := v]> acc), rest')
                        else None
                    | [] => None
                    end
                | None => None
                end
            | None => None
            end
        | None => None
        end
    | None => None
    end.
Proof. reflexivity. Qed.

(** With fuel above twice the length of the text, the result of the
    descent does not depend on the fuel, and every value takes at least
    one character. *)
Lemma parse_fuel n :
  (∀ s f1 f2,
     (length s ≤ n)%nat →
     (2 * length s + 2 ≤ f1)%nat → (2 * length s + 2 ≤ f2)%nat →
     parse_value f1 s = parse_value f2 s
     ∧ ∀ v rest, parse_value f1 s = Some (v, rest) →
                 (length rest < length s)%nat)
  ∧ (∀ s f1 f2 acc,
       (length s ≤ n)%nat →
       (2 * length s + 3 ≤ f1)%nat → (2 * length s + 3 ≤ f2)%nat →
       parse_elements f1 s acc = parse_elements f2 s acc
       ∧ ∀ v rest, parse_elements f1 s acc = Some (v, rest) →
                   (length rest < length s)%nat)
  ∧ (∀ s f1 f2 acc,
       (length s ≤ n)%nat →
       (2 * length s + 1 ≤ f1)%nat → (2 * length s + 1 ≤ f2)%nat →
       parse_members f1 s acc = parse_members f2 s acc
       ∧ ∀ v rest, parse_members f1 s acc = Some (v, rest) →
                   (length rest < length s)%nat).
Proof.
  induction n as [n IH] using lt_wf_ind.
  assert (Hvalue : ∀ s f1 f2,
            (length s ≤ n)%nat →
            (2 * length s + 2 ≤ f1)%nat → (2 * length s + 2 ≤ f2)%nat →
            parse_value f1 s = parse_value f2 s
            ∧ ∀ v rest, parse_value f1 s = Some (v, rest) →
                        (length rest < length s)%nat).
  { intros s f1 f2 Hn H1 H2.
    destruct f1 as [|f1]; [lia|]. destruct f2 as [|f2]; [lia|].
    rewrite !parse_value_S.
    pose proof (skip_ws_length s) as Hws.
    destruct (skip_ws s) as [|c rest]; [done|]. cbn [length] in Hws.
    pose proof (skip_ws_length rest) as Hws'.
    destruct (c =? 123)%N.
    { destruct (starts_with 125 (skip_ws rest)) as [rest'|] eqn:Hclose.
      - apply starts_with_length in Hclose.
        split; [done|]. intros v r [= _ <-]. lia.
      - destruct (IH (length rest) ltac:(lia)) as (_ & _ & IHm).
        destruct (IHm rest f1 f2 ∅ ltac:(lia) ltac:(lia) ltac:(lia))
          as [Heq Hshort].
        split; [done|]. intros v r Hr. specialize (Hshort v r Hr). lia. }
    destruct (c =? 91)%N.
    { destruct (starts_with 93 (skip_ws rest)) as [rest'|] eqn:Hclose.
      - apply starts_with_length in Hclose.
        split; [done|]. intros v r [= _ <-]. lia.
      - destruct (IH (length rest) ltac:(lia)) as (_ & IHe & _).
        destruct (IHe rest f1 f2 [] ltac:(lia) ltac:(lia) ltac:(lia))
          as [Heq Hshort].
        split; [done|]. intros v r Hr. specialize (Hshort v r Hr). lia. }
    destruct (c =? 34)%N.
    { destruct (parse_string_chars rest) as [[cs rest']|] eqn:Hstr; [|done].
      apply parse_string_chars_length in Hstr.
      split; [done|]. intros v r [= _ <-]. lia. }
    destruct (c =? 116)%N.
    { destruct (strip_prefix _ _) as [rest'|] eqn:Hlit; [|done].
      apply strip_prefix_length in Hlit. cbn [length] in Hlit.
      split; [done|]. intros v r [= _ <-].
      change (length (jsstr "true")) with 4%nat in Hlit. lia. }
    destruct (c =? 102)%N.
    { destruct (strip_prefix _ _) as [rest'|] eqn:Hlit; [|done].
      apply strip_prefix_length in Hlit. cbn [length] in Hlit.
      split; [done|]. intros v r [= _ <-].
      change (length (jsstr "false")) with 5%nat in Hlit. lia. }
    destruct (c =? 110)%N.
    { destruct (strip_prefix _ _) as [rest'|] eqn:Hlit; [|done].
      apply strip_prefix_length in Hlit. cbn [length] in Hlit.
      split; [done|]. intros v r [= _ <-].
      change (length (jsstr "null")) with 4%nat in Hlit. lia. }
    destruct (parse_number (c :: rest)) as [[q rest']|] eqn:Hnum; [|done].
    apply parse_number_length in Hnum. cbn [length] in Hnum.
    split; [done|]. intros v r [= _ <-]. lia. }
  split; [exact Hvalue|]. split.
  - intros s f1 f2 acc Hn H1 H2.
    destruct f1 as [|f1]; [lia|]. destruct f2 as [|f2]; [lia|].
    rewrite !parse_elements_S.
    destruct (Hvalue s f1 f2 Hn ltac:(lia) ltac:(lia)) as [Heq Hshort].
    rewrite <- Heq.
    destruct (parse_value f1 s) as [[v rest]|]; [|done].
    specialize (Hshort v rest eq_refl).
    pose proof (skip_ws_length rest) as Hws.
    destruct (skip_ws rest) as [|c rest']; [done|]. cbn [length] in Hws.
    destruct (c =? 44)%N.
    { destruct (IH (length rest') ltac:(lia)) as (_ & IHe & _).
      destruct (IHe rest' f1 f2 (acc ++ [v]) ltac:(lia) ltac:(lia) ltac:(lia))
        as [Heq' Hshort'].
      split; [done|]. intros w r Hr. specialize (Hshort' w r Hr). lia. }
    destruct (c =? 93)%N; [|done].
    split; [done|]. intros w r [= _ <-]. lia.
  - intros s f1 f2 acc Hn H1 H2.
    destruct f1 as [|f1]; [lia|]. destruct f2 as [|f2]; [lia|].
    rewrite !parse_members_S.
    pose proof (skip_ws_length s) as Hws.
    destruct (starts_with 34 (skip_ws s)) as [s1|] eqn:Hquote; [|done].
    apply starts_with_length in Hquote.
    destruct (parse_string_chars s1) as [[key s2]|] eqn:Hkey; [|done].
    apply parse_string_chars_length in Hkey.
    pose proof (skip_ws_length s2) as Hws2.
    destruct (starts_with 58 (skip_ws s2)) as [s3|] eqn:Hcolon; [|done].
    apply starts_with_length in Hcolon.
    destruct (IH (length s3) ltac:(lia)) as (IHv & _ & IHm).
    destruct (IHv s3 f1 f2 ltac:(lia) ltac:(lia) ltac:(lia)) as [Heq Hshort].
    rewrite <- Heq.
    destruct (parse_value f1 s3) as [[v rest]|]; [|done].
    specialize (Hshort v rest eq_refl).
    pose proof (skip_ws_length rest) as Hws3.
    destruct (skip_ws rest) as [|c rest']; [done|]. cbn [length] in Hws3.
    destruct (c =? 44)%N.
    { destruct (IHm rest' f1 f2 (<[key := v]> acc)
                  ltac:(lia) ltac:(lia) ltac:(lia)) as [Heq' Hshort'].
      split; [done|]. intros w r Hr. specialize (Hshort' w r Hr). lia. }
    destruct (c =? 125)%N; [|done].
    split; [done|]. intros w r [= _ <-]. lia.
Qed.

(** More fuel than [JSON_parse] gives changes nothing: no text fails for
    lack of fuel. *)
Lemma parse_value_fuel s fuel :
  (2 * length s + 2 ≤ fuel)%nat →
  parse_value fuel s = parse_value (2 * length s + 2) s.
Proof.
  intros Hfuel.
  by apply (proj1 (parse_fuel (length s)) s fuel (2 * length s + 2)%nat).
Qed.

(** ** Store, then read *)

Lemma JSON_stringify_not_empty d : JSON_stringify d ≠ [].
Proof. done. Qed.

(** A successful [storeDataset] has written the text of the dataset. *)
Lemma storeDataset_success d h r h1 :
  storeDataset d h = (Normal r, h1) →
  StorageResult.success r = true →
  localStorage_denied h = None
  ∧ h1 = with_items h (<[key_dataset STORAGE_KEYS := JSON_stringify d]>
                         (delete probe_key (items h))).
Proof.
  unfold storeDataset, bind at 1.
  destruct (isLocalStorageAvailable h) as [[[|]|e] h'] eqn:Hprobe; cbn [negb].
  - destruct (isLocalStorageAvailable_true h h' Hprobe) as [Hd ->].
    unfold try_catch, bind, localStorage_setItem, localStorage, bind, ret.
    change (localStorage_denied (with_items h ?m)) with (localStorage_denied h).
    rewrite Hd.
    change (items (with_items h ?m)) with m.
    change (setItem_throws (with_items h ?m)) with (setItem_throws h).
    destruct (setItem_throws h (delete probe_key (items h))
                (key_dataset STORAGE_KEYS) (JSON_stringify d)).
    + intros [= <- <-]. done.
    + intros [= <- <-] _. done.
  - intros [= <- <-]. done.
  - done.
Qed.

(** C7. When persistence is available and the write succeeds,
    [storeDataset d] followed by [getDataset] returns a success whose data
    is the dataset [d]: the same readings in the same order, each with the
    same three fields. *)
Theorem storeDataset_getDataset_roundtrip :
  ∀ (h : Host) (d : list BloodPressureReading)
    (r : StorageResult.t unit) (h1 : Host),
    storeDataset d h = (Normal r, h1) →
    StorageResult.success r = true →
    (isLocalStorageAvailable h1).1 = Normal true →
    (getDataset h1).1 = Normal (succeeded (Some (dataset_value d))).
Proof.
  intros h d r h1 Hstore Hok Hprobe.
  destruct (storeDataset_success d h r h1 Hstore Hok) as [Hd ->].
  destruct (isLocalStorageAvailable _) as [c h2] eqn:Hrun in Hprobe.
  cbn [fst] in Hprobe. subst c.
  destruct (isLocalStorageAvailable_true _ h2 Hrun) as [_ ->].
  unfold getDataset. rewrite (bind_normal _ _ _ _ _ Hrun). cbn [negb].
  unfold try_catch, bind, localStorage_getItem, localStorage, bind.
  rewrite !with_items_with_items.
  change (localStorage_denied (with_items h ?m)) with (localStorage_denied h).
  rewrite Hd.
  repeat change (items (with_items h ?m)) with m.
  rewrite lookup_delete_ne by (apply not_eq_sym, key_dataset_not_probe).
  rewrite lookup_insert_eq.
  destruct (JSON_stringify d) as [|c text] eqn:Htext;
    [by destruct (JSON_stringify_not_empty d)|].
  rewrite <- Htext.
  unfold safeJsonParse, try_catch, bind, JSON_parse_js.
  by rewrite JSON_parse_stringify.
Qed.

(** ** The cursor, stored and read *)

Lemma span_digits_all ds :
  Forall (fun c => isDigit c = true) ds → span_digits ds = (ds, []).
Proof.
  induction 1 as [|d ds Hd Hds IH]; [done|]. cbn. by rewrite Hd, IH.
Qed.

Lemma digit_not_white_space d :
  isDigit d = true → isStrWhiteSpaceChar d = false.
Proof.
  intros Hd. apply isDigit_spec in Hd. unfold isStrWhiteSpaceChar.
  rewrite !orb_false_iff, !andb_false_iff, !N.leb_gt, !N.eqb_neq. lia.
Qed.

(** [parseInt] reads back what [toString] prints. *)
Lemma parseInt_toString z : parseInt (Number_toString z) = Some z.
Proof.
  unfold Number_toString.
  destruct (Z.ltb_spec z 0) as [Hz|Hz].
  - destruct (digits_spec (Z.to_N (- z))) as (d & ds & -> & Hall & Hval & _).
    unfold parseInt. cbn [trimStart isStrWhiteSpaceChar N.leb N.eqb N.compare
                            Pos.compare Pos.compare_cont Pos.eqb andb orb
                            sign_of after_sign].
    rewrite (span_digits_all _ Hall), Hval. f_equal. lia.
  - destruct (digits_spec (Z.to_N z)) as (d & ds & -> & Hall & Hval & _).
    assert (Hd : isDigit d = true) by (by inversion Hall).
    unfold parseInt. cbn [trimStart].
    rewrite (digit_not_white_space d Hd).
    apply isDigit_spec in Hd.
    assert (H45 : (d =? 45)%N = false) by (apply N.eqb_neq; lia).
    assert (H43 : (d =? 43)%N = false) by (apply N.eqb_neq; lia).
    cbn [sign_of after_sign]. rewrite H45, H43. cbn [orb].
    rewrite (span_digits_all _ Hall), Hval. f_equal. lia.
Qed.

(** [parseInt] takes a leading integer and ignores what follows it. *)
Example parseInt_prefix : parseInt (jsstr "12abc") = Some 12.
Proof. reflexivity. Qed.

Example parseInt_not_a_number : parseInt (jsstr "abc") = None.
Proof. reflexivity. Qed.


(** ** The properties at concrete inputs *)

(** C1 at the built-in configuration, with base timestamp 0, every draw
    1/2 and an empty heap. *)
Lemma generateBloodPressureDataset_length_witness :
  unit_interval half_draws
  ∧ DatasetResult.success
      (generateBloodPressureDataset CONFIG 0 half_draws ∅).1 = true
  ∧ ((∃ ds,
        DatasetResult.dataset
          (generateBloodPressureDataset CONFIG 0 half_draws ∅).1 = Some ds
        ∧ Z.of_nat (length
            (contents (generateBloodPressureDataset CONFIG 0 half_draws ∅).2 ds))
          = calculateExpectedCombinations CONFIG
        ∧ Z.of_nat (length
            (contents (generateBloodPressureDataset CONFIG 0 half_draws ∅).2 ds))
          = brute_force_count CONFIG)
     ∧ calculateExpectedCombinations CONFIG = 1161
     ∧ brute_force_count CONFIG = 1161).
Proof.
  split; [intros k; split; [discriminate | reflexivity]|].
  split; [by rewrite generateBloodPressureDataset_run|].
  apply (generateBloodPressureDataset_length CONFIG 0 half_draws ∅).
  - intros k. split; [discriminate | reflexivity].
  - apply surjective_pairing.
  - by rewrite generateBloodPressureDataset_run.
Defined.

(** C5 at the built-in configuration: the second reading of the dataset
    generated with base timestamp 0 and every draw 1/2. *)
Lemma generated_readings_validate_witness :
  contents (generateBloodPressureDataset CONFIG 0 half_draws ∅).2 2%positive
    !! 1%nat
  = Some {| systolic := 131; diastolic := 90; timestamp := 1025000 |}
  ∧ validateReading CONFIG
      (obj {| systolic := 131; diastolic := 90; timestamp := 1025000 |})
    = true.
Proof.
  assert (Hr : contents (generateBloodPressureDataset CONFIG 0 half_draws ∅).2
                 2%positive !! 1%nat
               = Some {| systolic := 131; diastolic := 90;
                         timestamp := 1025000 |})
    by (vm_compute; reflexivity).
  split; [exact Hr|].
  apply (generated_readings_validate CONFIG 0 half_draws ∅
           (DatasetResult.mk true (Some 2%positive) None)
           (generateBloodPressureDataset CONFIG 0 half_draws ∅).2
           2%positive).
  - intros k. split; [discriminate | reflexivity].
  - etransitivity; [apply surjective_pairing|].
    f_equal; vm_compute; reflexivity.
  - reflexivity.
  - reflexivity.
  - exact (list_elem_of_lookup_2 _ _ _ Hr).
Defined.

(** C3 does not hold in its original form: with ranges that admit no
    pair the result is a success that carries an empty dataset, not a
    failure. *)
Lemma generateBloodPressureDataset_no_pairs_counterexample :
  brute_force_count no_pairs_config = 0
  ∧ DatasetResult.success
      (generateBloodPressureDataset no_pairs_config 0 half_draws ∅).1 = true
  ∧ DatasetResult.error
      (generateBloodPressureDataset no_pairs_config 0 half_draws ∅).1 = None
  ∧ DatasetResult.dataset
      (generateBloodPressureDataset no_pairs_config 0 half_draws ∅).1
    = Some 2%positive
  ∧ contents (generateBloodPressureDataset no_pairs_config 0 half_draws ∅).2
      2%positive = [].
Proof. vm_compute. repeat split; reflexivity. Qed.

(** C3, as the program has it, at the ranges without admissible pair. *)
Lemma generateBloodPressureDataset_no_pairs_witness :
  brute_force_count no_pairs_config = 0
  ∧ ∃ ds h',
      generateBloodPressureDataset no_pairs_config 0 half_draws ∅
      = (DatasetResult.mk true (Some ds) None, h')
      ∧ contents h' ds = [].
Proof.
  split; [reflexivity|].
  apply (generateBloodPressureDataset_no_pairs no_pairs_config 0 half_draws ∅).
  reflexivity.
Defined.

(** C6 on an array of three readings, every draw 1/2. *)
Lemma shuffleArray_permutation_witness :
  unit_interval half_draws
  ∧ contents (shuffleArray half_draws 1%positive {[1%positive := three_readings]}).2
      (shuffleArray half_draws 1%positive {[1%positive := three_readings]}).1
    ≡ₚ three_readings.
Proof.
  assert (Hrnd : unit_interval half_draws)
    by (intros k; split; [discriminate | reflexivity]).
  split; [exact Hrnd|].
  exact (proj1 (shuffleArray_permutation BloodPressureReading half_draws
                  1%positive {[1%positive := three_readings]} Hrnd)).
Defined.

(** C2 does not hold at a negative cursor: the remainder of [-1] by 3
    is [-1], no element of the array, so the result is absent, while
    [-1 + 1 * 3] selects the last reading. *)
Lemma getReadingAtIndex_negative_counterexample :
  three_readings ≠ []
  ∧ getReadingAtIndex (obj three_readings) (-1) = undefined
  ∧ getReadingAtIndex (obj three_readings)
      (-1 + 1 * Z.of_nat (length three_readings))
    = obj {| systolic := 122; diastolic := 80; timestamp := 2000 |}
  ∧ getReadingAtIndex (obj three_readings) (-1)
    ≠ getReadingAtIndex (obj three_readings)
        (-1 + 1 * Z.of_nat (length three_readings)).
Proof. repeat split; discriminate || reflexivity. Qed.

(** C2, as the program has it, on three readings: cursor 4 and cursor
    [4 + 2 * 3]. *)
Lemma getReadingAtIndex_wraparound_witness :
  three_readings ≠ []
  ∧ 0 ≤ 4
  ∧ 0 ≤ 4 + 2 * Z.of_nat (length three_readings)
  ∧ getReadingAtIndex (obj three_readings) 4
    = getReadingAtIndex (obj three_readings)
        (4 + 2 * Z.of_nat (length three_readings))
  ∧ ∃ r, three_readings !! Z.to_nat (4 mod Z.of_nat (length three_readings))
         = Some r
         ∧ getReadingAtIndex (obj three_readings) 4 = obj r.
Proof.
  split; [discriminate|]. split; [lia|]. split; [cbn; lia|].
  apply (getReadingAtIndex_wraparound three_readings 4 2);
    [discriminate | lia | cbn; lia].
Defined.

(** C7 on three readings, in a browser whose store is empty. *)
Lemma storeDataset_getDataset_roundtrip_witness :
  storeDataset three_readings fresh_browser
  = (Normal (succeeded None),
     with_items fresh_browser
       {[key_dataset STORAGE_KEYS := JSON_stringify three_readings]})
  ∧ (getDataset
       (with_items fresh_browser
          {[key_dataset STORAGE_KEYS := JSON_stringify three_readings]})).1
    = Normal (succeeded (Some (dataset_value three_readings))).
Proof.
  assert (Hstore : storeDataset three_readings fresh_browser
                   = (Normal (succeeded None),
                      with_items fresh_browser
                        {[key_dataset STORAGE_KEYS
                            := JSON_stringify three_readings]}))
    by (vm_compute; reflexivity).
  split; [exact Hstore|].
  apply (storeDataset_getDataset_roundtrip fresh_browser three_readings
           (succeeded None) _ Hstore).
  - reflexivity.
  - vm_compute. reflexivity.
Defined.


(** C8 where there is no [window]. *)
Lemma unavailable_storage_witness :
  unavailable no_window
  ∧ storeDataset three_readings no_window = (Normal not_available, no_window)
  ∧ getDataset no_window = (Normal not_available, no_window)
  ∧ storeCurrentIndex 5 no_window = (Normal not_available, no_window)
  ∧ getCurrentIndex no_window = (Normal not_available, no_window)
  ∧ storeTimestamp 1000 no_window = (Normal not_available, no_window)
  ∧ getTimestamp no_window = (Normal not_available, no_window)
  ∧ clearStorage no_window = (Normal not_available, no_window)
  ∧ isAppInitialized no_window = (Normal false, no_window)
  ∧ ∀ T : Type,
      StorageResult.success (@not_available T) = false
      ∧ type <$> StorageResult.error (@not_available T) = Some STORAGE_ERROR
      ∧ message <$> StorageResult.error (@not_available T)
        = Some (jsstr "localStorage is not available").
Proof.
  split; [by left|].
  apply (unavailable_storage no_window three_readings 5 1000). by left.
Defined.

(** * Further properties *)

(** ** What the enumeration holds *)

Lemma NoDup_list_prod {A B} (l : list A) (k : list B) :
  NoDup l → NoDup k → NoDup (list_prod l k).
Proof.
  intros Hl Hk. induction Hl as [|x l Hx Hl IH]; [constructor|].
  cbn [list_prod]. apply NoDup_app. split; [|split; [|done]].
  - assert (Hinj : Inj eq eq (fun y : B => (x, y))) by (by intros y1 y2 [= ->]).
    by apply (NoDup_fmap_2 (fun y => (x, y))).
  - intros [a b] Hin Hin'. apply list_elem_of_In, in_map_iff in Hin.
    destruct Hin as (y & [= <- <-] & _).
    apply list_elem_of_In, in_prod_iff in Hin'. destruct Hin' as [Hin' _].
    by apply Hx, list_elem_of_In.
Qed.

Lemma NoDup_List_filter {A} (f : A → bool) (l : list A) :
  NoDup l → NoDup (List.filter f l).
Proof.
  induction 1 as [|x l Hx Hl IH]; cbn [List.filter]; [constructor|].
  destruct (f x); [|exact IH]. constructor; [|exact IH].
  intros Hin. apply Hx. apply list_elem_of_In, filter_In in Hin.
  apply list_elem_of_In. by destruct Hin.
Qed.

Section EnumerationContents.
Variable config : BloodPressureConfig.
Variable baseTimestamp : Z.

Lemma push_row_pressures ds s acc :
  pressures <$> push_row config baseTimestamp acc s ds
  = (pressures <$> acc)
      ++ List.filter (fun p : Z * Z => isValidPulsePreasure config p.1 p.2)
           (List.map (fun d => (s, d)) ds).
Proof.
  unfold push_row. revert acc.
  induction ds as [|d ds IH]; intros acc; [by rewrite app_nil_r|].
  cbn [foldl List.map List.filter fst snd].
  destruct (isValidPulsePreasure config s d); rewrite IH; [|done].
  by rewrite fmap_app, <- app_assoc.
Qed.

Lemma enumerate_rows_pressures ss ds acc :
  pressures <$> foldl (fun acc s => push_row config baseTimestamp acc s ds) acc ss
  = (pressures <$> acc)
      ++ List.filter (fun p : Z * Z => isValidPulsePreasure config p.1 p.2)
           (list_prod ss ds).
Proof.
  revert acc. induction ss as [|s ss IH]; intros acc; [by rewrite app_nil_r|].
  cbn [foldl list_prod].
  by rewrite IH, push_row_pressures, List.filter_app, <- app_assoc.
Qed.

(** The pairs of the enumeration, in order: the product of the two
    ranges, filtered. *)
Lemma enumerate_pressures :
  pressures <$> enumerate config baseTimestamp
  = List.filter (fun p : Z * Z => isValidPulsePreasure config p.1 p.2)
      (list_prod
         (for_range (min (cfg_systolic config)) (max (cfg_systolic config)))
         (for_range (min (cfg_diastolic config)) (max (cfg_diastolic config)))).
Proof. apply (enumerate_rows_pressures _ _ []). Qed.

Lemma enumerate_pressures_NoDup :
  NoDup (pressures <$> enumerate config baseTimestamp).
Proof.
  rewrite enumerate_pressures.
  apply NoDup_List_filter, NoDup_list_prod; apply NoDup_seqZ.
Qed.

Lemma elem_of_for_range x lo hi : x ∈ for_range lo hi ↔ lo ≤ x ≤ hi.
Proof. unfold for_range. rewrite elem_of_seqZ. lia. Qed.

Lemma enumerate_pressures_elem p :
  p ∈ pressures <$> enumerate config baseTimestamp ↔ admissible config p.
Proof.
  rewrite enumerate_pressures, list_elem_of_In, filter_In.
  destruct p as [s d]. rewrite in_prod_iff, <- !list_elem_of_In.
  rewrite !elem_of_for_range. unfold admissible. cbn [fst snd]. tauto.
Qed.

Lemma push_row_timestamps ds s acc :
  timestamp <$> acc
  = (fun i => baseTimestamp + Z.of_nat i * 1000) <$> seq 0 (length acc) →
  timestamp <$> push_row config baseTimestamp acc s ds
  = (fun i => baseTimestamp + Z.of_nat i * 1000)
      <$> seq 0 (length (push_row config baseTimestamp acc s ds)).
Proof.
  unfold push_row. revert acc.
  induction ds as [|d ds IH]; intros acc Hacc; [done|].
  cbn [foldl]. apply IH.
  destruct (isValidPulsePreasure config s d); [|done].
  rewrite length_app, Nat.add_1_r, seq_S, !fmap_app, Hacc. done.
Qed.

(** The timestamps of the enumeration: the base time and one second more
    for each reading. *)
Lemma enumerate_timestamps :
  timestamp <$> enumerate config baseTimestamp
  = (fun i => baseTimestamp + Z.of_nat i * 1000)
      <$> seq 0 (length (enumerate config baseTimestamp)).
Proof.
  unfold enumerate.
  generalize (for_range (min (cfg_systolic config)) (max (cfg_systolic config))).
  intros ss.
  assert (Hnil : timestamp <$> @nil BloodPressureReading
                 = (fun i => baseTimestamp + Z.of_nat i * 1000)
                     <$> seq 0 (length (@nil BloodPressureReading))) by done.
  revert Hnil. generalize (@nil BloodPressureReading).
  induction ss as [|s ss IH]; intros acc Hacc; [done|].
  cbn [foldl]. apply IH. by apply push_row_timestamps.
Qed.

Lemma enumerate_timestamps_NoDup :
  NoDup (timestamp <$> enumerate config baseTimestamp).
Proof.
  rewrite enumerate_timestamps. apply NoDup_fmap_2; [|apply NoDup_seq].
  intros i j Hij. lia.
Qed.

End EnumerationContents.

(** X1. The array built by [generateAllCombinations] lists the admissible
    pairs in the order of the two loops (systolic outermost): its pairs
    are the product of the two ranges filtered by the pulse-pressure
    predicate, so no pair occurs twice and a pair occurs exactly when it
    is admissible. *)
Theorem generateAllCombinations_pairs :
  ∀ (config : BloodPressureConfig) (now : Z) (h : Heap BloodPressureReading),
    contents (generateAllCombinations config now h).2
      (generateAllCombinations config now h).1 = enumerate config now
    ∧ pressures <$> enumerate config now
      = List.filter (fun p : Z * Z => isValidPulsePreasure config p.1 p.2)
          (list_prod
             (for_range (min (cfg_systolic config)) (max (cfg_systolic config)))
             (for_range (min (cfg_diastolic config)) (max (cfg_diastolic config))))
    ∧ NoDup (pressures <$> enumerate config now)
    ∧ ∀ p : Z * Z,
        p ∈ pressures <$> enumerate config now ↔ admissible config p.
Proof.
  intros config now h. split; [apply alloc_contents|].
  split; [apply enumerate_pressures|].
  split; [apply enumerate_pressures_NoDup|]. apply enumerate_pressures_elem.
Qed.

(** X2. The timestamps that [generateAllCombinations] assigns are the base
    time plus 1000 times the position in the array: they increase by one
    second from one reading to the next and no two are equal. *)
Theorem generateAllCombinations_timestamps :
  ∀ (config : BloodPressureConfig) (now : Z),
    timestamp <$> enumerate config now
    = (fun i => now + Z.of_nat i * 1000)
        <$> seq 0 (length (enumerate config now))
    ∧ NoDup (timestamp <$> enumerate config now).
Proof.
  intros config now.
  split; [apply enumerate_timestamps | apply enumerate_timestamps_NoDup].
Qed.

(** X3. A dataset returned by [generateBloodPressureDataset] holds every
    admissible pair exactly once, and no two of its readings share a
    timestamp. *)
Theorem generated_dataset_pairs :
  ∀ config now rnd h res h' ds,
    unit_interval rnd →
    generateBloodPressureDataset config now rnd h = (res, h') →
    DatasetResult.dataset res = Some ds →
    NoDup (pressures <$> contents h' ds)
    ∧ (∀ p : Z * Z, p ∈ pressures <$> contents h' ds ↔ admissible config p)
    ∧ NoDup (timestamp <$> contents h' ds).
Proof.
  intros config now rnd h res h' ds Hrnd Hgen Hds.
  pose proof (generateBloodPressureDataset_contents _ _ _ _ _ _ _ Hrnd Hgen Hds)
    as Hperm.
  split; [|split].
  - rewrite Hperm. apply enumerate_pressures_NoDup.
  - intros p. rewrite Hperm. apply enumerate_pressures_elem.
  - rewrite Hperm. apply enumerate_timestamps_NoDup.
Qed.

(** X3 at the built-in configuration, with base timestamp 0, every draw
    1/2 and an empty heap. *)
Lemma generated_dataset_pairs_witness :
  unit_interval half_draws
  ∧ NoDup (pressures
             <$> contents (generateBloodPressureDataset CONFIG 0 half_draws ∅).2
                   2%positive)
  ∧ (∀ p : Z * Z,
       p ∈ pressures
             <$> contents (generateBloodPressureDataset CONFIG 0 half_draws ∅).2
                   2%positive
       ↔ admissible CONFIG p)
  ∧ NoDup (timestamp
             <$> contents (generateBloodPressureDataset CONFIG 0 half_draws ∅).2
                   2%positive).
Proof.
  assert (Hrnd : unit_interval half_draws)
    by (intros k; split; [discriminate | reflexivity]).
  split; [exact Hrnd|].
  apply (generated_dataset_pairs CONFIG 0 half_draws ∅
           (DatasetResult.mk true (Some 2%positive) None)
           (generateBloodPressureDataset CONFIG 0 half_draws ∅).2
           2%positive Hrnd).
  - etransitivity; [apply surjective_pairing|].
    f_equal; vm_compute; reflexivity.
  - reflexivity.
Defined.


(** ** Reading a generated dataset at a cursor *)

Lemma CONFIG_count : calculateExpectedCombinations CONFIG = 1161.
Proof. vm_compute. reflexivity. Qed.

(** X5. Under the built-in configuration, reading a generated dataset at
    any cursor that is not negative gives a reading, and the reading
    passes [validateReading]: the check that the callers make after
    [getReadingAtIndex] cannot fail on a fresh dataset. *)
Theorem generated_dataset_reading_valid :
  ∀ now rnd h res h' ds (i : Z),
    unit_interval rnd →
    generateBloodPressureDataset CONFIG now rnd h = (res, h') →
    DatasetResult.dataset res = Some ds →
    0 ≤ i →
    ∃ r, getReadingAtIndex (obj (contents h' ds)) i = obj r
         ∧ validateReading CONFIG (obj r) = true.
Proof.
  intros now rnd h res h' ds i Hrnd Hgen Hds Hi.
  pose proof (generateBloodPressureDataset_contents _ _ _ _ _ _ _ Hrnd Hgen Hds)
    as Hperm.
  assert (Hne : contents h' ds ≠ []).
  { intros Hnil. apply Permutation_length in Hperm. rewrite Hnil in Hperm.
    pose proof (enumerate_length CONFIG now) as Hlen.
    rewrite CONFIG_count, <- Hperm in Hlen. done. }
  destruct (getReadingAtIndex_nonnegative _ i Hne Hi) as (r & Hr & Hget).
  exists r. split; [done|].
  apply list_elem_of_lookup_2 in Hr. rewrite Hperm in Hr.
  pose proof (enumerate_valid CONFIG now) as Hvalid.
  rewrite Forall_forall in Hvalid. by apply Hvalid.
Qed.

(** X5 at the cursor 5000, past the end of the 1161 readings. *)
Lemma generated_dataset_reading_valid_witness :
  unit_interval half_draws
  ∧ 0 ≤ 5000
  ∧ ∃ r, getReadingAtIndex
           (obj (contents (generateBloodPressureDataset CONFIG 0 half_draws ∅).2
                   2%positive)) 5000 = obj r
         ∧ validateReading CONFIG (obj r) = true.
Proof.
  assert (Hrnd : unit_interval half_draws)
    by (intros k; split; [discriminate | reflexivity]).
  split; [exact Hrnd|]. split; [lia|].
  apply (generated_dataset_reading_valid 0 half_draws ∅
           (DatasetResult.mk true (Some 2%positive) None)
           (generateBloodPressureDataset CONFIG 0 half_draws ∅).2
           2%positive 5000 Hrnd).
  - etransitivity; [apply surjective_pairing|].
    f_equal; vm_compute; reflexivity.
  - reflexivity.
  - lia.
Defined.


(** X7. At a negative cursor [getReadingAtIndex] gives the first reading
    when the cursor is a multiple of the length, and [undefined]
    otherwise. *)
Theorem getReadingAtIndex_negative_cursor :
  ∀ (r0 : BloodPressureReading) (rest : list BloodPressureReading) (i : Z),
    i < 0 →
    getReadingAtIndex (obj (r0 :: rest)) i
    = if Z.rem i (Z.of_nat (length (r0 :: rest))) =? 0
      then obj r0 else undefined.
Proof.
  intros r0 rest i Hi. unfold getReadingAtIndex.
  cbn [Nat.eqb length].
  pose proof (Z.rem_nonpos i (Z.of_nat (S (length rest))) ltac:(lia) ltac:(lia))
    as Hle.
  destruct (Z.eqb_spec (Z.rem i (Z.of_nat (S (length rest)))) 0) as [->|Hne];
    [done|].
  unfold index.
  by destruct (Z.ltb_spec (Z.rem i (Z.of_nat (S (length rest)))) 0); [|lia].
Qed.

(** X7 at the cursor -6 on three readings. *)
Lemma getReadingAtIndex_negative_cursor_witness :
  -6 < 0
  ∧ getReadingAtIndex (obj three_readings) (-6)
    = obj {| systolic := 120; diastolic := 80; timestamp := 0 |}
  ∧ getReadingAtIndex (obj three_readings) (-6)
    = if Z.rem (-6) (Z.of_nat (length three_readings)) =? 0
      then obj {| systolic := 120; diastolic := 80; timestamp := 0 |}
      else undefined.
Proof.
  split; [lia|]. split; [reflexivity|].
  apply (getReadingAtIndex_negative_cursor
           {| systolic := 120; diastolic := 80; timestamp := 0 |}
           [ {| systolic := 121; diastolic := 80; timestamp := 1000 |};
             {| systolic := 122; diastolic := 80; timestamp := 2000 |} ]
           (-6)).
  lia.
Defined.

(** ** The draws of the shuffle *)

Section ShuffleDraws.
Context {T : Type}.
Implicit Types (h : Heap T) (a : ArrayRef).

Lemma shuffle_loop_ext rnd rnd' a i calls h :
  (∀ k, (calls ≤ k < calls + i)%nat → rnd k = rnd' k) →
  shuffle_loop rnd a i calls h = shuffle_loop rnd' a i calls h.
Proof.
  revert calls h. induction i as [|i IH]; intros calls h Hext; [done|].
  cbn [shuffle_loop]. rewrite (Hext calls) by lia.
  apply IH. intros k Hk. apply Hext. lia.
Qed.



End ShuffleDraws.

(** X8. What [shuffleArray] returns for an array of [n] elements depends
    on the first [n - 1] values of [Math.random] only: two sources of
    draws that agree on them give the same result and the same heap. *)
Theorem shuffleArray_draws_used :
  ∀ (T : Type) (rnd rnd' : nat → Q) (array : ArrayRef) (h : Heap T),
    (∀ k, (k < length (contents h array) - 1)%nat → rnd k = rnd' k) →
    shuffleArray rnd array h = shuffleArray rnd' array h.
Proof.
  intros T rnd rnd' array h Hext. unfold shuffleArray.
  pose proof (alloc_contents (contents h array) h) as Hc.
  destruct (alloc (contents h array) h) as [s h1]. cbn [fst snd] in Hc.
  rewrite Hc. f_equal. apply shuffle_loop_ext.
  intros k Hk. apply Hext. lia.
Qed.

(** X8 on three readings: draws that differ from the third on. *)
Lemma shuffleArray_draws_used_witness :
  (∀ k, (k < length (contents {[1%positive := three_readings]} 1%positive) - 1)%nat →
        half_draws k
        = (fun k => if (k <? 2)%nat then (1 # 2)%Q else (9 # 10)%Q) k)
  ∧ shuffleArray half_draws 1%positive {[1%positive := three_readings]}
    = shuffleArray (fun k => if (k <? 2)%nat then (1 # 2)%Q else (9 # 10)%Q)
        1%positive {[1%positive := three_readings]}.
Proof.
  assert (Hext : ∀ k,
            (k < length (contents {[1%positive := three_readings]} 1%positive)
                 - 1)%nat →
            half_draws k
            = (fun k => if (k <? 2)%nat then (1 # 2)%Q else (9 # 10)%Q) k).
  { intros k Hk. change (k < 2)%nat in Hk.
    by destruct (Nat.ltb_spec k 2); [|lia]. }
  split; [exact Hext|].
  exact (shuffleArray_draws_used BloodPressureReading half_draws _ 1%positive
           {[1%positive := three_readings]} Hext).
Defined.

(** X9. An array with no element or one element comes back from
    [shuffleArray] as a copy with the same contents, whatever the source
    of draws. *)
Theorem shuffleArray_short :
  ∀ (T : Type) (rnd : nat → Q) (array : ArrayRef) (h : Heap T),
    (length (contents h array) ≤ 1)%nat →
    contents (shuffleArray rnd array h).2 (shuffleArray rnd array h).1
    = contents h array.
Proof.
  intros T rnd array h Hlen. unfold shuffleArray.
  pose proof (alloc_contents (contents h array) h) as Hc.
  destruct (alloc (contents h array) h) as [s h1]. cbn [fst snd] in *.
  rewrite Hc.
  by replace (length (contents h array) - 1)%nat with 0%nat by lia.
Qed.

(** X9 on an array of one number. *)
Lemma shuffleArray_short_witness :
  (length (contents {[1%positive := [7]]} 1%positive) ≤ 1)%nat
  ∧ contents (shuffleArray half_draws 1%positive {[1%positive := [7]]}).2
      (shuffleArray half_draws 1%positive {[1%positive := [7]]}).1
    = contents {[1%positive := [7]]} 1%positive.
Proof.
  split; [vm_compute; lia|].
  apply (shuffleArray_short Z half_draws 1%positive {[1%positive := [7]]}).
  vm_compute. lia.
Defined.



(** ** The storage manager, operation by operation *)

Lemma available_probe h :
  available h → isLocalStorageAvailable h = (Normal true, probed h).
Proof.
  intros (Hw & Hd & Hs). by rewrite isLocalStorageAvailable_spec, Hw, Hd, Hs.
Qed.

Lemma probe_available h :
  (isLocalStorageAvailable h).1 = Normal true → available h.
Proof.
  rewrite isLocalStorageAvailable_spec. unfold available.
  destruct (window_defined h); [|done].
  destruct (localStorage_denied h); [done|].
  by destruct (setItem_throws h (items h) probe_key probe_key).
Qed.

Lemma available_or_unavailable h : available h ∨ unavailable h.
Proof.
  unfold available, unavailable.
  destruct (window_defined h); [|by right; left].
  destruct (localStorage_denied h); [by right; right; left|].
  destruct (setItem_throws h (items h) probe_key probe_key);
    [by right; right; right|by left].
Qed.

Lemma key_timestamp_not_probe : key_timestamp STORAGE_KEYS ≠ probe_key.
Proof. intros H. vm_compute in H. discriminate. Qed.

Lemma key_dataset_not_index : key_dataset STORAGE_KEYS ≠ key_index STORAGE_KEYS.
Proof. intros H. vm_compute in H. discriminate. Qed.

Lemma key_dataset_not_timestamp :
  key_dataset STORAGE_KEYS ≠ key_timestamp STORAGE_KEYS.
Proof. intros H. vm_compute in H. discriminate. Qed.

Lemma key_index_not_timestamp :
  key_index STORAGE_KEYS ≠ key_timestamp STORAGE_KEYS.
Proof. intros H. vm_compute in H. discriminate. Qed.

(** Runs the availability probe of an operation on a host where it
    succeeds, and then the host primitives of the body. *)
Ltac run_available h Hav :=
  rewrite (bind_normal _ _ _ _ _ (available_probe h Hav)); cbn [negb];
  unfold try_catch, bind, localStorage_setItem, localStorage_getItem,
    localStorage_removeItem, localStorage, bind, ret, probed;
  repeat progress
    (rewrite ?with_items_with_items;
     repeat change (localStorage_denied (with_items h ?m))
       with (localStorage_denied h);
     rewrite ?(proj1 (proj2 Hav));
     repeat change (setItem_throws (with_items h ?m)) with (setItem_throws h);
     repeat change (items (with_items h ?m)) with m).

Lemma storeDataset_available d h :
  available h →
  storeDataset d h
  = store_outcome h (key_dataset STORAGE_KEYS) (JSON_stringify d)
      (jsstr "Failed to store dataset").
Proof.
  intros Hav. unfold storeDataset, store_outcome. run_available h Hav.
  by destruct (setItem_throws h _ _ _).
Qed.

Lemma storeCurrentIndex_available n h :
  available h →
  storeCurrentIndex n h
  = store_outcome h (key_index STORAGE_KEYS) (Number_toString n)
      (jsstr "Failed to store current index").
Proof.
  intros Hav. unfold storeCurrentIndex, store_outcome. run_available h Hav.
  by destruct (setItem_throws h _ _ _).
Qed.

Lemma storeTimestamp_available n h :
  available h →
  storeTimestamp n h
  = store_outcome h (key_timestamp STORAGE_KEYS) (Number_toString n)
      (jsstr "Failed to store timestamp").
Proof.
  intros Hav. unfold storeTimestamp, store_outcome. run_available h Hav.
  by destruct (setItem_throws h _ _ _).
Qed.

Lemma getDataset_available h :
  available h →
  getDataset h
  = (Normal
       match items h !! key_dataset STORAGE_KEYS with
       | None | Some [] =>
           failed (createStorageError (jsstr "No dataset found in storage") None)
       | Some text =>
           match JSON_parse text with
           | Some v => succeeded (Some v)
           | None =>
               failed (createStorageError (jsstr "Failed to parse JSON data")
                         (Some (syntaxErrorMessage h text)))
           end
       end,
     probed h).
Proof.
  intros Hav. unfold getDataset. run_available h Hav.
  rewrite lookup_delete_ne by (apply not_eq_sym, key_dataset_not_probe).
  destruct (items h !! key_dataset STORAGE_KEYS) as [[|c text]|]; [done| |done].
  unfold safeJsonParse, try_catch, bind, JSON_parse_js, ret.
  by destruct (JSON_parse (c :: text)).
Qed.

Lemma getTimestamp_available h :
  available h →
  getTimestamp h
  = (Normal
       match items h !! key_timestamp STORAGE_KEYS with
       | None =>
           failed (createStorageError (jsstr "No timestamp found in storage") None)
       | Some text =>
           match parseInt text with
           | None =>
               failed (createStorageError
                         (jsstr "Invalid timestamp format in storage") None)
           | Some n => succeeded (Some n)
           end
       end,
     probed h).
Proof.
  intros Hav. unfold getTimestamp. run_available h Hav.
  rewrite lookup_delete_ne by (apply not_eq_sym, key_timestamp_not_probe).
  destruct (items h !! key_timestamp STORAGE_KEYS) as [text|]; [|done].
  by destruct (parseInt text).
Qed.

Lemma getCurrentIndex_run h :
  available h →
  getCurrentIndex h
  = (Normal
       match items h !! key_index STORAGE_KEYS with
       | None =>
           failed (createStorageError (jsstr "No index found in storage") None)
       | Some text =>
           match parseInt text with
           | None =>
               failed (createStorageError
                         (jsstr "Invalid index format in storage") None)
           | Some n => succeeded (Some n)
           end
       end,
     probed h).
Proof.
  intros Hav. apply getCurrentIndex_available.
  by rewrite (available_probe h Hav).
Qed.

Lemma clearStorage_available h :
  available h →
  clearStorage h
  = (Normal (succeeded None),
     with_items h
       (delete (key_timestamp STORAGE_KEYS)
          (delete (key_index STORAGE_KEYS)
             (delete (key_dataset STORAGE_KEYS)
                (delete probe_key (items h)))))).
Proof. intros Hav. unfold clearStorage. by run_available h Hav. Qed.

Lemma isAppInitialized_available h :
  available h →
  isAppInitialized h
  = (Normal (bool_decide (is_Some (items h !! key_dataset STORAGE_KEYS))
             && bool_decide (is_Some (items h !! key_index STORAGE_KEYS))
             && bool_decide (is_Some (items h !! key_timestamp STORAGE_KEYS))),
     probed h).
Proof.
  intros Hav. unfold isAppInitialized. run_available h Hav.
  rewrite !lookup_delete_ne;
    [done|apply not_eq_sym, key_timestamp_not_probe
         |apply not_eq_sym, key_index_not_probe
         |apply not_eq_sym, key_dataset_not_probe].
Qed.

Lemma store_outcome_shape h key text msg r h1 :
  store_outcome h key text msg = (Normal r, h1) → storage_result_shape r.
Proof.
  unfold store_outcome.
  destruct (setItem_throws h _ _ _); intros [= <- <-].
  - right. repeat split. by eexists.
  - by left.
Qed.

Lemma not_available_shape {T} : storage_result_shape (@not_available T).
Proof. right. repeat split. by eexists. Qed.

Lemma store_outcome_normal h key text msg :
  ∃ r, (store_outcome h key text msg).1 = Normal r ∧ storage_result_shape r.
Proof.
  destruct (store_outcome h key text msg) as [c h1] eqn:Hrun.
  pose proof Hrun as Hrun'. unfold store_outcome in Hrun'.
  destruct (setItem_throws h _ _ _); injection Hrun' as <- <-;
    eexists; (split; [reflexivity|]); eapply store_outcome_shape, Hrun.
Qed.

(** Runs an operation on a host where the probe fails. *)
Ltac run_unavailable h Hun :=
  unfold storeDataset, getDataset, storeCurrentIndex, getCurrentIndex,
    storeTimestamp, getTimestamp, clearStorage, isAppInitialized;
  rewrite (bind_normal _ _ _ _ _ (isLocalStorageAvailable_unavailable h Hun));
  cbn [negb ret fst snd].

Lemma storage_result_shape_failed {T} message details :
  storage_result_shape (@failed T (createStorageError message details)).
Proof. right. repeat split. by eexists. Qed.

Lemma storage_result_shape_succeeded {T} (data : option T) :
  storage_result_shape (succeeded data).
Proof. by left. Qed.

(** X11. No operation of the storage manager throws, on any host: each
    returns, and what the store, get and clear operations return is either
    a success without error or a failure without data whose error is a
    [STORAGE_ERROR]. *)
Theorem storage_operations_return :
  ∀ (h : Host) (dataset : list BloodPressureReading) (index timestamp : Z),
    (∃ b, (isLocalStorageAvailable h).1 = Normal b)
    ∧ (∃ r, (storeDataset dataset h).1 = Normal r ∧ storage_result_shape r)
    ∧ (∃ r, (getDataset h).1 = Normal r ∧ storage_result_shape r)
    ∧ (∃ r, (storeCurrentIndex index h).1 = Normal r ∧ storage_result_shape r)
    ∧ (∃ r, (getCurrentIndex h).1 = Normal r ∧ storage_result_shape r)
    ∧ (∃ r, (storeTimestamp timestamp h).1 = Normal r ∧ storage_result_shape r)
    ∧ (∃ r, (getTimestamp h).1 = Normal r ∧ storage_result_shape r)
    ∧ (∃ r, (clearStorage h).1 = Normal r ∧ storage_result_shape r)
    ∧ (∃ b, (isAppInitialized h).1 = Normal b).
Proof.
  intros h dataset index timestamp.
  split; [apply isLocalStorageAvailable_normal|].
  destruct (available_or_unavailable h) as [Hav|Hun].
  - rewrite (storeDataset_available _ _ Hav),
      (storeCurrentIndex_available _ _ Hav),
      (storeTimestamp_available _ _ Hav), (getDataset_available _ Hav),
      (getCurrentIndex_run _ Hav), (getTimestamp_available _ Hav),
      (clearStorage_available _ Hav), (isAppInitialized_available _ Hav).
    repeat split; try apply store_outcome_normal;
      eexists; try (split; [reflexivity|]); try reflexivity.
    + destruct (items h !! key_dataset STORAGE_KEYS) as [[|c text]|];
        try apply storage_result_shape_failed.
      destruct (JSON_parse (c :: text));
        [apply storage_result_shape_succeeded|apply storage_result_shape_failed].
    + destruct (items h !! key_index STORAGE_KEYS) as [text|];
        [|apply storage_result_shape_failed].
      destruct (parseInt text);
        [apply storage_result_shape_succeeded|apply storage_result_shape_failed].
    + destruct (items h !! key_timestamp STORAGE_KEYS) as [text|];
        [|apply storage_result_shape_failed].
      destruct (parseInt text);
        [apply storage_result_shape_succeeded|apply storage_result_shape_failed].
    + apply storage_result_shape_succeeded.
  - repeat split; run_unavailable h Hun; eexists;
      try (split; [reflexivity|apply not_available_shape]); reflexivity.
Qed.

Lemma store_outcome_frame h key text msg k :
  k ≠ probe_key → k ≠ key →
  items (store_outcome h key text msg).2 !! k = items h !! k.
Proof.
  intros Hp Hk. unfold store_outcome, probed.
  destruct (setItem_throws h _ _ _); cbn [snd].
  - change (items (with_items h ?m)) with m. by rewrite lookup_delete_ne.
  - change (items (with_items h ?m)) with m.
    by rewrite lookup_insert_ne, lookup_delete_ne.
Qed.

Lemma probed_frame h k : k ≠ probe_key → items (probed h) !! k = items h !! k.
Proof.
  intros Hp. unfold probed. change (items (with_items h ?m)) with m.
  by rewrite lookup_delete_ne.
Qed.

(** X12. What the operations leave alone: apart from the key of the
    availability probe, a store operation changes no slot but its own, a
    get operation and [isAppInitialized] change no slot at all, and
    [clearStorage] changes no slot but the three of the application. *)
Theorem storage_operations_frame :
  ∀ (h : Host) (dataset : list BloodPressureReading) (index timestamp : Z)
    (k : JsString),
    k ≠ probe_key →
    (k ≠ key_dataset STORAGE_KEYS →
     items (storeDataset dataset h).2 !! k = items h !! k)
    ∧ (k ≠ key_index STORAGE_KEYS →
       items (storeCurrentIndex index h).2 !! k = items h !! k)
    ∧ (k ≠ key_timestamp STORAGE_KEYS →
       items (storeTimestamp timestamp h).2 !! k = items h !! k)
    ∧ items (getDataset h).2 !! k = items h !! k
    ∧ items (getCurrentIndex h).2 !! k = items h !! k
    ∧ items (getTimestamp h).2 !! k = items h !! k
    ∧ items (isAppInitialized h).2 !! k = items h !! k
    ∧ (k ≠ key_dataset STORAGE_KEYS → k ≠ key_index STORAGE_KEYS →
       k ≠ key_timestamp STORAGE_KEYS →
       items (clearStorage h).2 !! k = items h !! k).
Proof.
  intros h dataset index timestamp k Hp.
  destruct (available_or_unavailable h) as [Hav|Hun].
  - rewrite (storeDataset_available _ _ Hav),
      (storeCurrentIndex_available _ _ Hav),
      (storeTimestamp_available _ _ Hav), (getDataset_available _ Hav),
      (getCurrentIndex_run _ Hav), (getTimestamp_available _ Hav),
      (clearStorage_available _ Hav), (isAppInitialized_available _ Hav).
    cbn [snd].
    repeat split; intros; try (by apply store_outcome_frame);
      try (by apply probed_frame).
    change (items (with_items h ?m)) with m.
    by rewrite !lookup_delete_ne.
  - repeat split; intros; by run_unavailable h Hun.
Qed.


(** X14. When persistence is available, a store operation fails exactly
    when the host's [setItem] throws on the slot: the failure then says
    which store failed and carries the message of what was thrown, and
    nothing is written; otherwise the operation succeeds. *)
Theorem store_operations_available :
  ∀ (h : Host) (dataset : list BloodPressureReading) (index timestamp : Z),
    available h →
    let refused key text :=
      setItem_throws h (delete probe_key (items h)) key text in
    let outcome message thrown : StorageResult.t unit :=
      match thrown with
      | Some e =>
          failed (createStorageError message
                    (Some (error_message e (jsstr "Unknown storage error"))))
      | None => succeeded None
      end in
    (storeDataset dataset h).1
    = Normal (outcome (jsstr "Failed to store dataset")
                (refused (key_dataset STORAGE_KEYS) (JSON_stringify dataset)))
    ∧ (storeCurrentIndex index h).1
      = Normal (outcome (jsstr "Failed to store current index")
                  (refused (key_index STORAGE_KEYS) (Number_toString index)))
    ∧ (storeTimestamp timestamp h).1
      = Normal (outcome (jsstr "Failed to store timestamp")
                  (refused (key_timestamp STORAGE_KEYS)
                     (Number_toString timestamp))).
Proof.
  intros h dataset index timestamp Hav refused outcome.
  rewrite (storeDataset_available _ _ Hav),
    (storeCurrentIndex_available _ _ Hav), (storeTimestamp_available _ _ Hav).
  unfold store_outcome, refused, outcome.
  repeat split; by destruct (setItem_throws h _ _ _).
Qed.

(** X15. When persistence is available, [getDataset] fails with
    'No dataset found in storage' exactly when the dataset slot is absent
    or holds the empty text, fails with 'Failed to parse JSON data' and
    the parser's message exactly when the text is not JSON, and otherwise
    succeeds with the value parsed, whatever that value is. *)
Theorem getDataset_available_result :
  ∀ h : Host,
    available h →
    ∃ r,
      (getDataset h).1 = Normal r
      ∧ (r = failed (createStorageError (jsstr "No dataset found in storage") None)
         ↔ items h !! key_dataset STORAGE_KEYS = None
           ∨ items h !! key_dataset STORAGE_KEYS = Some [])
      ∧ (∀ text,
           items h !! key_dataset STORAGE_KEYS = Some text → text ≠ [] →
           r = match JSON_parse text with
               | Some v => succeeded (Some v)
               | None =>
                   failed (createStorageError (jsstr "Failed to parse JSON data")
                             (Some (syntaxErrorMessage h text)))
               end).
Proof.
  intros h Hav. rewrite (getDataset_available h Hav). eexists.
  split; [reflexivity|].
  destruct (items h !! key_dataset STORAGE_KEYS) as [[|c text]|].
  - split; [split; [by right|done]|]. by intros text [= <-].
  - split.
    + split; [|by intros [|]].
      destruct (JSON_parse (c :: text)); [done|].
      intros H. apply (f_equal StorageResult.error) in H. cbn in H.
      injection H as H. vm_compute in H. discriminate.
    + by intros ? [= <-].
  - split; [split; [by left|done]|]. done.
Qed.

Lemma isAppInitialized_result h :
  ∃ b, (isAppInitialized h).1 = Normal b
       ∧ (b = true
          ↔ available h
            ∧ is_Some (items h !! key_dataset STORAGE_KEYS)
            ∧ is_Some (items h !! key_index STORAGE_KEYS)
            ∧ is_Some (items h !! key_timestamp STORAGE_KEYS)).
Proof.
  destruct (available_or_unavailable h) as [Hav|Hun].
  - rewrite (isAppInitialized_available h Hav). cbn [fst].
    eexists. split; [reflexivity|]. split.
    + intros H. apply andb_prop in H as [H H3].
      apply andb_prop in H as [H1 H2].
      apply bool_decide_eq_true_1 in H1, H2, H3. done.
    + intros (_ & H1 & H2 & H3). by rewrite !bool_decide_eq_true_2.
  - run_unavailable h Hun. eexists. split; [reflexivity|]. split; [done|].
    intros ((Hw & Hd & Hs) & _).
    destruct Hun as [Hun|[[x Hun]|[x Hun]]]; congruence.
Qed.

(** X16. [isAppInitialized] returns [true] exactly when persistence is
    available and each of the three slots is present; what the slots hold
    is not looked at. *)
Theorem isAppInitialized_true_iff :
  ∀ h : Host,
    (isAppInitialized h).1 = Normal true
    ↔ available h
      ∧ is_Some (items h !! key_dataset STORAGE_KEYS)
      ∧ is_Some (items h !! key_index STORAGE_KEYS)
      ∧ is_Some (items h !! key_timestamp STORAGE_KEYS).
Proof.
  intros h. destruct (isAppInitialized_result h) as (b & -> & Hb).
  rewrite <- Hb. split; [by intros [= ->]|by intros ->].
Qed.

(** X17. When persistence is available, [clearStorage] succeeds and
    removes the three slots of the application (and the key of the probe)
    and nothing else; [isAppInitialized] then returns [false]. *)
Theorem clearStorage_clears :
  ∀ h : Host,
    available h →
    (clearStorage h).1 = Normal (succeeded None)
    ∧ (∀ k,
         items (clearStorage h).2 !! k
         = if bool_decide (k ∈ [key_dataset STORAGE_KEYS;
                                key_index STORAGE_KEYS;
                                key_timestamp STORAGE_KEYS; probe_key])
           then None else items h !! k)
    ∧ (isAppInitialized (clearStorage h).2).1 = Normal false.
Proof.
  intros h Hav. rewrite (clearStorage_available h Hav). cbn [fst snd].
  split; [done|]. split.
  - intros k. change (items (with_items h ?m)) with m.
    case_bool_decide as Hk.
    + rewrite !elem_of_cons in Hk.
      destruct Hk as [->|[->|[->|[->|Hk]]]]; [| | | |by apply elem_of_nil in Hk].
      * rewrite lookup_delete_ne
          by (apply not_eq_sym, key_dataset_not_timestamp).
        rewrite lookup_delete_ne by (apply not_eq_sym, key_dataset_not_index).
        by rewrite lookup_delete_eq.
      * rewrite lookup_delete_ne
          by (apply not_eq_sym, key_index_not_timestamp).
        by rewrite lookup_delete_eq.
      * by rewrite lookup_delete_eq.
      * rewrite lookup_delete_ne by apply key_timestamp_not_probe.
        rewrite lookup_delete_ne by apply key_index_not_probe.
        rewrite lookup_delete_ne by apply key_dataset_not_probe.
        by rewrite lookup_delete_eq.
    + rewrite !elem_of_cons in Hk. rewrite !lookup_delete_ne; naive_solver.
  - destruct (isAppInitialized_result
                (with_items h
                   (delete (key_timestamp STORAGE_KEYS)
                      (delete (key_index STORAGE_KEYS)
                         (delete (key_dataset STORAGE_KEYS)
                            (delete probe_key (items h)))))))
      as (b & -> & Hb).
    destruct b; [|done].
    destruct Hb as [Hb _]. destruct (Hb eq_refl) as (_ & _ & _ & [x Hx]).
    change (items (with_items h ?m)) with m in Hx.
    by rewrite lookup_delete_eq in Hx.
Qed.

(** ** Stores followed by reads *)




(** The slots after the three stores of an initialisation. *)
Lemma stored_slots (m : gmap JsString JsString) (a b c : JsString) :
  let m3 :=
    <[key_timestamp STORAGE_KEYS := c]>
      (delete probe_key
         (<[key_index STORAGE_KEYS := b]>
            (delete probe_key
               (<[key_dataset STORAGE_KEYS := a]> (delete probe_key m))))) in
  m3 !! key_dataset STORAGE_KEYS = Some a
  ∧ m3 !! key_index STORAGE_KEYS = Some b
  ∧ m3 !! key_timestamp STORAGE_KEYS = Some c.
Proof.
  cbn zeta. split; [|split].
  - rewrite lookup_insert_ne
      by (apply not_eq_sym, key_dataset_not_timestamp).
    rewrite lookup_delete_ne by (apply not_eq_sym, key_dataset_not_probe).
    rewrite lookup_insert_ne by (apply not_eq_sym, key_dataset_not_index).
    rewrite lookup_delete_ne by (apply not_eq_sym, key_dataset_not_probe).
    apply lookup_insert_eq.
  - rewrite lookup_insert_ne by (apply not_eq_sym, key_index_not_timestamp).
    rewrite lookup_delete_ne by (apply not_eq_sym, key_index_not_probe).
    apply lookup_insert_eq.
  - apply lookup_insert_eq.
Qed.

(** What the get operations return when the three slots hold the texts of
    a dataset, a cursor and a timestamp. *)
Lemma reads_of_slots h d n t :
  available h →
  items h !! key_dataset STORAGE_KEYS = Some (JSON_stringify d) →
  items h !! key_index STORAGE_KEYS = Some (Number_toString n) →
  items h !! key_timestamp STORAGE_KEYS = Some (Number_toString t) →
  (isAppInitialized h).1 = Normal true
  ∧ (getDataset h).1 = Normal (succeeded (Some (dataset_value d)))
  ∧ (getCurrentIndex h).1 = Normal (succeeded (Some n))
  ∧ (getTimestamp h).1 = Normal (succeeded (Some t)).
Proof.
  intros Hav Hds Hix Hts.
  rewrite (isAppInitialized_available _ Hav), (getDataset_available _ Hav),
    (getCurrentIndex_run _ Hav), (getTimestamp_available _ Hav).
  cbn [fst]. rewrite Hix, Hts, !parseInt_toString.
  split; [by rewrite Hds|]. split; [|done].
  pose proof (JSON_stringify_not_empty d) as Hne.
  pose proof (JSON_parse_stringify d) as Hparse.
  destruct (items h !! key_dataset STORAGE_KEYS) as [text|]; [|done].
  injection Hds as ->.
  destruct (JSON_stringify d) as [|c text]; [done|]. by rewrite Hparse.
Qed.


(** ** The storage manager at concrete hosts *)

(** X12 at a browser that holds a cursor: storing a dataset leaves the
    cursor's slot as it was. *)
Lemma storage_operations_frame_witness :
  key_index STORAGE_KEYS ≠ probe_key
  ∧ key_index STORAGE_KEYS ≠ key_dataset STORAGE_KEYS
  ∧ items (storeDataset three_readings corrupted_index).2
      !! key_index STORAGE_KEYS
    = items corrupted_index !! key_index STORAGE_KEYS.
Proof.
  split; [apply key_index_not_probe|].
  split; [apply not_eq_sym, key_dataset_not_index|].
  exact (proj1 (storage_operations_frame corrupted_index three_readings 0 0
                  (key_index STORAGE_KEYS) key_index_not_probe)
           (not_eq_sym key_dataset_not_index)).
Defined.

(** X14 at a browser whose quota is used up: the three stores fail with
    the browser's message. *)
Lemma store_operations_available_witness :
  available full_browser
  ∧ (storeDataset three_readings full_browser).1
    = Normal (failed (createStorageError (jsstr "Failed to store dataset")
                        (Some (jsstr "The quota has been exceeded."))))
  ∧ (storeCurrentIndex 0 full_browser).1
    = Normal (failed (createStorageError (jsstr "Failed to store current index")
                        (Some (jsstr "The quota has been exceeded."))))
  ∧ (storeTimestamp 1000 full_browser).1
    = Normal (failed (createStorageError (jsstr "Failed to store timestamp")
                        (Some (jsstr "The quota has been exceeded.")))).
Proof.
  assert (Hav : available full_browser) by done.
  split; [exact Hav|].
  apply (store_operations_available full_browser three_readings 0 1000 Hav).
Defined.

(** X15 at an empty browser: no dataset is found. *)
Lemma getDataset_available_result_witness :
  available fresh_browser
  ∧ ∃ r,
      (getDataset fresh_browser).1 = Normal r
      ∧ (r = failed (createStorageError (jsstr "No dataset found in storage") None)
         ↔ items fresh_browser !! key_dataset STORAGE_KEYS = None
           ∨ items fresh_browser !! key_dataset STORAGE_KEYS = Some [])
      ∧ (∀ text,
           items fresh_browser !! key_dataset STORAGE_KEYS = Some text →
           text ≠ [] →
           r = match JSON_parse text with
               | Some v => succeeded (Some v)
               | None =>
                   failed (createStorageError (jsstr "Failed to parse JSON data")
                             (Some (syntaxErrorMessage fresh_browser text)))
               end).
Proof.
  assert (Hav : available fresh_browser) by done.
  split; [exact Hav|].
  apply (getDataset_available_result fresh_browser Hav).
Defined.

(** X17 at a browser that holds a cursor. *)
Lemma clearStorage_clears_witness :
  available corrupted_index
  ∧ (clearStorage corrupted_index).1 = Normal (succeeded None)
  ∧ (∀ k,
       items (clearStorage corrupted_index).2 !! k
       = if bool_decide (k ∈ [key_dataset STORAGE_KEYS;
                              key_index STORAGE_KEYS;
                              key_timestamp STORAGE_KEYS; probe_key])
         then None else items corrupted_index !! k)
  ∧ (isAppInitialized (clearStorage corrupted_index).2).1 = Normal false.
Proof.
  assert (Hav : available corrupted_index) by done.
  split; [exact Hav|].
  apply (clearStorage_clears corrupted_index Hav).
Defined.



(** ** The category shown with a reading *)

(** The branches of [getBloodPressureCategory], by rank. *)
Lemma category_rank_spec s d :
  category_rank (getBloodPressureCategory s d)
  = if (s <? 120) && (d <? 80) then 0%nat
    else if (s <? 130) && (d <? 80) then 1%nat
    else if (s <? 140) || (d <? 90) then 2%nat
    else 3%nat.
Proof.
  unfold getBloodPressureCategory.
  destruct ((s <? 120) && (d <? 80)); [done|].
  destruct ((s <? 130) && (d <? 80)); [done|].
  by destruct ((s <? 140) || (d <? 90)).
Qed.

Lemma category_rank_inj s d s' d' :
  category_rank (getBloodPressureCategory s d)
  = category_rank (getBloodPressureCategory s' d') →
  getBloodPressureCategory s d = getBloodPressureCategory s' d'.
Proof.
  rewrite !category_rank_spec. unfold getBloodPressureCategory.
  destruct ((s <? 120) && (d <? 80)), ((s <? 130) && (d <? 80)),
    ((s <? 140) || (d <? 90)), ((s' <? 120) && (d' <? 80)),
    ((s' <? 130) && (d' <? 80)), ((s' <? 140) || (d' <? 90)); done.
Qed.

Lemma category_stage_2 s d :
  category (getBloodPressureCategory s d) = jsstr "High Stage 2" →
  140 ≤ s ∧ 90 ≤ d.
Proof.
  unfold getBloodPressureCategory.
  destruct (Z.ltb_spec s 120), (Z.ltb_spec d 80), (Z.ltb_spec s 130),
    (Z.ltb_spec s 140), (Z.ltb_spec d 90);
    cbn [andb orb category]; intros Hc; try lia;
    vm_compute in Hc; discriminate.
Qed.

(** X20. The pressures of each category: 'Normal' below 120 and 80,
    'Elevated' from 120 to 129 with a diastolic below 80, 'High Stage 2'
    only when the systolic is at least 140 and the diastolic at least 90,
    and 'High Stage 1' for everything between, which includes a systolic
    of 140 or more with a diastolic below 90. *)
Theorem getBloodPressureCategory_ranges :
  ∀ s d : Z,
    (category (getBloodPressureCategory s d) = jsstr "Normal"
     ↔ s < 120 ∧ d < 80)
    ∧ (category (getBloodPressureCategory s d) = jsstr "Elevated"
       ↔ 120 ≤ s < 130 ∧ d < 80)
    ∧ (category (getBloodPressureCategory s d) = jsstr "High Stage 1"
       ↔ (130 ≤ s ∨ 80 ≤ d) ∧ (s < 140 ∨ d < 90))
    ∧ (category (getBloodPressureCategory s d) = jsstr "High Stage 2"
       ↔ 140 ≤ s ∧ 90 ≤ d).
Proof.
  intros s d. unfold getBloodPressureCategory.
  destruct (Z.ltb_spec s 120), (Z.ltb_spec d 80), (Z.ltb_spec s 130),
    (Z.ltb_spec s 140), (Z.ltb_spec d 90);
    cbn [andb orb category];
    (split; [|split; [|split]]); (split; intros Hc);
    try lia; try reflexivity; vm_compute in Hc; discriminate.
Qed.

(** X21. The category never falls when a pressure rises: with both
    pressures at least as high, the category is the same or a later one
    in the order Normal, Elevated, High Stage 1, High Stage 2. *)
Theorem getBloodPressureCategory_monotone :
  ∀ s d s' d' : Z,
    s ≤ s' → d ≤ d' →
    (category_rank (getBloodPressureCategory s d)
     ≤ category_rank (getBloodPressureCategory s' d'))%nat.
Proof.
  intros s d s' d' Hs Hd. rewrite !category_rank_spec.
  destruct (Z.ltb_spec s 120), (Z.ltb_spec d 80), (Z.ltb_spec s 130),
    (Z.ltb_spec s 140), (Z.ltb_spec d 90),
    (Z.ltb_spec s' 120), (Z.ltb_spec d' 80), (Z.ltb_spec s' 130),
    (Z.ltb_spec s' 140), (Z.ltb_spec d' 90);
    cbn [andb orb]; lia.
Qed.

Lemma count_category_Permutation name (l l' : list BloodPressureReading) :
  l ≡ₚ l' → count_category name l = count_category name l'.
Proof.
  unfold count_category.
  induction 1 as [|x l l' _ IH|x y l|l l' l'' _ IH1 _ IH2]; cbn [List.filter].
  - done.
  - destruct (bool_decide _); cbn [length]; by rewrite IH.
  - by do 2 destruct (bool_decide _).
  - by rewrite IH1.
Qed.

(** The count looks at the pressures only. *)
Lemma count_category_pressures name (l : list BloodPressureReading) :
  count_category name l
  = length (List.filter
      (fun p : Z * Z =>
         bool_decide (category (getBloodPressureCategory p.1 p.2) = name))
      (pressures <$> l)).
Proof.
  unfold count_category.
  induction l as [|r l IH]; [done|]. cbn [List.filter fmap list_fmap].
  change (pressures r).1 with (systolic r).
  change (pressures r).2 with (diastolic r).
  destruct (bool_decide _); cbn [length]; by rewrite IH.
Qed.

Lemma count_category_enumerate name now :
  count_category name (enumerate CONFIG now)
  = count_category name (enumerate CONFIG 0).
Proof. by rewrite !count_category_pressures, !enumerate_pressures. Qed.

(** X22. Of the 1161 readings of a dataset generated under the built-in
    configuration, 555 are shown as 'Normal', 155 as 'Elevated', 450 as
    'High Stage 1' and one, 140 over 90, as 'High Stage 2', whatever the
    time and the draws of the shuffle. *)
Theorem generated_dataset_categories :
  ∀ now rnd h res h' ds,
    unit_interval rnd →
    generateBloodPressureDataset CONFIG now rnd h = (res, h') →
    DatasetResult.dataset res = Some ds →
    count_category (jsstr "Normal") (contents h' ds) = 555%nat
    ∧ count_category (jsstr "Elevated") (contents h' ds) = 155%nat
    ∧ count_category (jsstr "High Stage 1") (contents h' ds) = 450%nat
    ∧ count_category (jsstr "High Stage 2") (contents h' ds) = 1%nat
    ∧ ∀ r, r ∈ contents h' ds →
           category (getBloodPressureCategory (systolic r) (diastolic r))
           = jsstr "High Stage 2" →
           systolic r = 140 ∧ diastolic r = 90.
Proof.
  intros now rnd h res h' ds Hrnd Hgen Hds.
  pose proof (generateBloodPressureDataset_contents _ _ _ _ _ _ _ Hrnd Hgen Hds)
    as Hperm.
  rewrite !(count_category_Permutation _ _ _ Hperm), !count_category_enumerate.
  do 4 (split; [vm_compute; reflexivity|]).
  intros r Hr Hc. rewrite Hperm in Hr.
  assert (Hp : pressures r ∈ pressures <$> enumerate CONFIG now)
    by (by apply list_elem_of_fmap_2).
  apply enumerate_pressures_elem in Hp as ((_ & Hs) & (_ & Hd) & _).
  cbn in Hs, Hd. apply category_stage_2 in Hc. lia.
Qed.

(** X21 from an optimal reading to the highest one generated. *)
Lemma getBloodPressureCategory_monotone_witness :
  119 ≤ 140 ∧ 79 ≤ 90
  ∧ (category_rank (getBloodPressureCategory 119 79)
     ≤ category_rank (getBloodPressureCategory 140 90))%nat.
Proof.
  split; [lia|]. split; [lia|].
  apply (getBloodPressureCategory_monotone 119 79 140 90); lia.
Defined.

(** X22 at the built-in configuration, with base timestamp 0, every draw
    1/2 and an empty heap. *)
Lemma generated_dataset_categories_witness :
  unit_interval half_draws
  ∧ count_category (jsstr "High Stage 2")
      (contents (generateBloodPressureDataset CONFIG 0 half_draws ∅).2
         2%positive) = 1%nat.
Proof.
  assert (Hrnd : unit_interval half_draws)
    by (intros k; split; [discriminate | reflexivity]).
  split; [exact Hrnd|].
  apply (generated_dataset_categories 0 half_draws ∅
           (DatasetResult.mk true (Some 2%positive) None)
           (generateBloodPressureDataset CONFIG 0 half_draws ∅).2
           2%positive Hrnd).
  - etransitivity; [apply surjective_pairing|].
    f_equal; vm_compute; reflexivity.
  - reflexivity.
Defined.

(** ** The page: taps *)







Lemma healthy_available h : healthy h → available h.
Proof. intros (Hw & Hd & Hs). by repeat split. Qed.

Lemma healthy_with_items h m : healthy h → healthy (with_items h m).
Proof. done. Qed.

Lemma store_outcome_healthy h key text msg :
  healthy h →
  store_outcome h key text msg
  = (Normal (succeeded None),
     with_items h (<[key := text]> (delete probe_key (items h)))).
Proof. intros (_ & _ & Hs). unfold store_outcome. by rewrite Hs. Qed.


(** ** The page: initialisation *)

Lemma getReadingAtIndex_zero (l : list BloodPressureReading) x :
  getReadingAtIndex (obj l) 0 = x → not_ x = false →
  ∃ r, x = obj r ∧ l !! 0%nat = Some r.
Proof.
  intros <-. unfold getReadingAtIndex.
  destruct l as [|r l]; cbn; [done|]. intros _. by exists r.
Qed.

(** X27. [initializeApp] ends in one of two ways, on every host and for
    every draw: either the page is initialised at cursor 0 and shows the
    first reading of the new dataset, which passes [validateReading], with
    no error; or the application state is as it was and an error is
    shown.  Either way the page is no longer loading. *)
Theorem initializeApp_outcome :
  ∀ (now timestamp : Z) (rnd : nat → Q) (w : World),
    let w' := initializeApp now timestamp rnd w in
    isLoading (page w') = false
    ∧ ((error (page w') = None
        ∧ isInitialized (appState (page w')) = true
        ∧ currentIndex (appState (page w')) = 0
        ∧ datasetSize (appState (page w'))
          = Z.of_nat (length (contents (heap w') (dataset (page w'))))
        ∧ ∃ r, currentReading (appState (page w')) = obj r
               ∧ contents (heap w') (dataset (page w')) !! 0%nat = Some r
               ∧ validateReading CONFIG (obj r) = true)
       ∨ (is_Some (error (page w'))
          ∧ appState (page w') = appState (page w))).
Proof.
  intros now timestamp rnd w. cbn zeta. unfold initializeApp.
  rewrite generateBloodPressureDataset_run.
  cbn [DatasetResult.success DatasetResult.dataset].
  set (ds := (shuffleArray rnd _ _).1). set (heap1 := (shuffleArray rnd _ _).2).
  destruct (storeDataset _ _) as [[r1|e1] h1]; [|by split; [|right]].
  destruct r1 as [[|] data1 [err1|]]; cbn [StorageResult.success
    StorageResult.error]; try (by split; [|right]).
  all: destruct (storeCurrentIndex _ _) as [[r2|e2] h2]; [|by split; [|right]].
  all: destruct r2 as [[|] data2 [err2|]]; cbn [StorageResult.success
    StorageResult.error]; try (by split; [|right]).
  all: destruct (storeTimestamp _ _) as [[r3|e3] h3]; [|by split; [|right]].
  all: destruct r3 as [[|] data3 [err3|]]; cbn [StorageResult.success
    StorageResult.error]; try (by split; [|right]).
  all: destruct (not_ _) eqn:Hnot; cbn [orb]; [by split; [|right]|].
  all: destruct (validateReading CONFIG _) eqn:Hvalid; cbn [negb];
    [|by split; [|right]].
  all: destruct (getReadingAtIndex_zero _ _ eq_refl Hnot) as (r & Hr & Hfirst).
  all: split; [done|left].
  all: cbn [page heap setIsLoading setAppState setDataset setError appState
              error isInitialized currentIndex datasetSize currentReading
              dataset].
  all: repeat split; exists r; by rewrite <- Hr.
Qed.

(** X28. Where persistence is absent or unavailable, [initializeApp]
    shows 'localStorage is not available' and leaves the application
    state and the host as they were, although the dataset was generated:
    a page that was not initialised stays so, and taps do nothing. *)
Theorem initializeApp_unavailable :
  ∀ (now timestamp : Z) (rnd : nat → Q) (w : World),
    unavailable (host w) →
    let w' := initializeApp now timestamp rnd w in
    error (page w') = Some (jsstr "localStorage is not available")
    ∧ isLoading (page w') = false
    ∧ appState (page w') = appState (page w)
    ∧ host w' = host w
    ∧ (isInitialized (appState (page w)) = false →
       ∀ n, taps n w' = w').
Proof.
  intros now timestamp rnd w Hun. cbn zeta. unfold initializeApp.
  rewrite generateBloodPressureDataset_run.
  cbn [DatasetResult.success DatasetResult.dataset].
  set (ds := (shuffleArray rnd _ _).1). set (heap1 := (shuffleArray rnd _ _).2).
  run_unavailable (host w) Hun.
  cbn [not_available failed StorageResult.success StorageResult.error].
  set (w' := {| page := _; heap := heap1; host := host w |}).
  repeat split.
  intros Hinit n. induction n as [|n IH]; [done|].
  cbn [taps]. unfold getNextReading at 1.
  cbn [w' page handleError setIsLoading setError setDataset appState].
  rewrite Hinit. cbn [negb orb snd]. apply IH.
Qed.

Lemma generated_length now rnd h :
  unit_interval rnd →
  length (contents (generateBloodPressureDataset CONFIG now rnd h).2
            (shuffleArray rnd (alloc (enumerate CONFIG now) h).1
               (alloc (enumerate CONFIG now) h).2).1) = 1161%nat.
Proof.
  intros Hrnd. rewrite generateBloodPressureDataset_run. cbn [snd].
  rewrite shuffleArray_contents, alloc_contents by done.
  pose proof (enumerate_length CONFIG now) as Hlen.
  rewrite CONFIG_count in Hlen. lia.
Qed.

(** What [initializeApp] comes to on a host whose store accepts every
    write. *)
Lemma initializeApp_healthy_run now timestamp rnd w :
  healthy (host w) →
  unit_interval rnd →
  ∃ ds r,
    let heap1 := (generateBloodPressureDataset CONFIG now rnd (heap w)).2 in
    length (contents heap1 ds) = 1161%nat
    ∧ contents heap1 ds !! 0%nat = Some r
    ∧ validateReading CONFIG (obj r) = true
    ∧ initializeApp now timestamp rnd w
      = {| page :=
             {| appState := {| currentReading := obj r;
                               datasetSize := 1161;
                               currentIndex := 0;
                               isInitialized := true |};
                isLoading := false;
                error := None;
                dataset := ds |};
           heap := heap1;
           host :=
             with_items (host w)
               (<[key_timestamp STORAGE_KEYS := Number_toString timestamp]>
                  (delete probe_key
                     (<[key_index STORAGE_KEYS := Number_toString 0]>
                        (delete probe_key
                           (<[key_dataset STORAGE_KEYS
                                := JSON_stringify (contents heap1 ds)]>
                              (delete probe_key (items (host w)))))))) |}.
Proof.
  intros Hh Hrnd.
  pose proof (generated_length now rnd (heap w) Hrnd) as Hlen.
  pose proof (generateBloodPressureDataset_contents CONFIG now rnd (heap w)
                _ _ _ Hrnd (generateBloodPressureDataset_run _ _ _ _) eq_refl)
    as Hperm.
  unfold initializeApp.
  rewrite generateBloodPressureDataset_run in *.
  cbn [DatasetResult.success DatasetResult.dataset snd] in *.
  set (ds := (shuffleArray rnd _ _).1) in *.
  set (heap1 := (shuffleArray rnd _ _).2) in *.
  assert (Hne : contents heap1 ds ≠ [])
    by (intros Hnil; by rewrite Hnil in Hlen).
  destruct (getReadingAtIndex_nonnegative _ 0 Hne ltac:(lia))
    as (r & Hr & Hget).
  rewrite Z.mod_0_l in Hr by lia. change (Z.to_nat 0) with 0%nat in Hr.
  assert (Hvalid : validateReading CONFIG (obj r) = true).
  { apply list_elem_of_lookup_2 in Hr. rewrite Hperm in Hr.
    pose proof (enumerate_valid CONFIG now) as Hall.
    rewrite Forall_forall in Hall. by apply Hall. }
  exists ds, r. cbn zeta. split; [done|]. split; [done|]. split; [done|].
  rewrite (storeDataset_available _ _ (healthy_available _ Hh)),
    (store_outcome_healthy _ _ _ _ Hh).
  cbn [succeeded StorageResult.success StorageResult.error].
  rewrite (storeCurrentIndex_available _ _
             (healthy_available _ (healthy_with_items _ _ Hh))),
    (store_outcome_healthy _ _ _ _ (healthy_with_items _ _ Hh)).
  cbn [succeeded StorageResult.success StorageResult.error].
  rewrite !with_items_with_items.
  rewrite (storeTimestamp_available _ _
             (healthy_available _ (healthy_with_items _ _ Hh))),
    (store_outcome_healthy _ _ _ _ (healthy_with_items _ _ Hh)).
  cbn [succeeded StorageResult.success StorageResult.error].
  rewrite !with_items_with_items.
  repeat change (items (with_items (host w) ?m)) with m.
  rewrite Hget, Hvalid, Hlen. reflexivity.
Qed.

(** What the get operations read from the host that [initializeApp]
    leaves behind. *)
Lemma initialized_host_reads h m d t :
  healthy h →
  let h' :=
    with_items h
      (<[key_timestamp STORAGE_KEYS := Number_toString t]>
         (delete probe_key
            (<[key_index STORAGE_KEYS := Number_toString 0]>
               (delete probe_key
                  (<[key_dataset STORAGE_KEYS := JSON_stringify d]>
                     (delete probe_key m)))))) in
  (isAppInitialized h').1 = Normal true
  ∧ (getDataset h').1 = Normal (succeeded (Some (dataset_value d)))
  ∧ (getCurrentIndex h').1 = Normal (succeeded (Some 0))
  ∧ (getTimestamp h').1 = Normal (succeeded (Some t)).
Proof.
  intros Hh. cbn zeta.
  destruct (stored_slots m (JSON_stringify d) (Number_toString 0)
              (Number_toString t)) as (Hds & Hix & Hts).
  apply reads_of_slots;
    [apply healthy_available, healthy_with_items, Hh|done..].
Qed.

(** X29. On a host whose store accepts every write, [initializeApp]
    leaves the page initialised at cursor 0 with the 1161 readings of a
    new dataset, showing the first of them, and leaves in the store what
    a later visit reads back: the same dataset, the cursor 0 and the
    timestamp. *)
Theorem initializeApp_healthy :
  ∀ (now timestamp : Z) (rnd : nat → Q) (w : World),
    healthy (host w) →
    unit_interval rnd →
    let w' := initializeApp now timestamp rnd w in
    let readings := contents (heap w') (dataset (page w')) in
    error (page w') = None
    ∧ isLoading (page w') = false
    ∧ isInitialized (appState (page w')) = true
    ∧ currentIndex (appState (page w')) = 0
    ∧ datasetSize (appState (page w')) = 1161
    ∧ length readings = 1161%nat
    ∧ (∃ r, currentReading (appState (page w')) = obj r
            ∧ readings !! 0%nat = Some r)
    ∧ (isAppInitialized (host w')).1 = Normal true
    ∧ (getDataset (host w')).1
      = Normal (succeeded (Some (dataset_value readings)))
    ∧ (getCurrentIndex (host w')).1 = Normal (succeeded (Some 0))
    ∧ (getTimestamp (host w')).1 = Normal (succeeded (Some timestamp)).
Proof.
  intros now timestamp rnd w Hh Hrnd. cbn zeta.
  destruct (initializeApp_healthy_run now timestamp rnd w Hh Hrnd)
    as (ds & r & Hlen & Hr & Hvalid & ->).
  cbn [page heap host appState error isLoading isInitialized currentIndex
         datasetSize currentReading dataset].
  do 5 (split; [done|]). split; [done|]. split; [by exists r|].
  by apply initialized_host_reads.
Qed.

(** X30. On a host whose store accepts every write, [resetApp] returns
    with the page initialised anew, whatever it showed before: cursor 0,
    no error, a new dataset of 1161 readings with the first one shown, and
    the cursor 0 in the store. *)
Theorem resetApp_healthy :
  ∀ (now timestamp : Z) (rnd : nat → Q) (w : World),
    healthy (host w) →
    unit_interval rnd →
    let w' := (resetApp now timestamp rnd w).2 in
    let readings := contents (heap w') (dataset (page w')) in
    (resetApp now timestamp rnd w).1 = Normal tt
    ∧ error (page w') = None
    ∧ isInitialized (appState (page w')) = true
    ∧ currentIndex (appState (page w')) = 0
    ∧ length readings = 1161%nat
    ∧ (∃ r, currentReading (appState (page w')) = obj r
            ∧ readings !! 0%nat = Some r)
    ∧ (getCurrentIndex (host w')).1 = Normal (succeeded (Some 0))
    ∧ (getDataset (host w')).1
      = Normal (succeeded (Some (dataset_value readings))).
Proof.
  intros now timestamp rnd w Hh Hrnd. cbn zeta. unfold resetApp.
  rewrite (clearStorage_available _ (healthy_available _ Hh)).
  destruct (alloc [] (heap w)) as [empty heap1].
  cbn [fst snd].
  set (w1 := {| page := _; heap := heap1; host := _ |}).
  assert (Hh1 : healthy (host w1)) by (apply healthy_with_items, Hh).
  destruct (initializeApp_healthy_run now timestamp rnd w1 Hh1 Hrnd)
    as (ds & r & Hlen & Hr & Hvalid & ->).
  cbn [page heap host appState error isLoading isInitialized currentIndex
         datasetSize currentReading dataset].
  do 4 (split; [done|]). split; [done|]. split; [by exists r|].
  destruct (initialized_host_reads (host w1) (items (host w1))
              (contents (generateBloodPressureDataset CONFIG now rnd
                           (heap w1)).2 ds) timestamp Hh1)
    as (_ & Hds & Hix & _).
  split; [exact Hix | exact Hds].
Qed.

(** ** The page at concrete states *)




(** X28 at the first render where there is no [window]. *)
Lemma initializeApp_unavailable_witness :
  unavailable (host (Home no_window))
  ∧ error (page (initializeApp 0 0 half_draws (Home no_window)))
    = Some (jsstr "localStorage is not available")
  ∧ isInitialized
      (appState (page (initializeApp 0 0 half_draws (Home no_window))))
    = false.
Proof.
  assert (Hun : unavailable (host (Home no_window))) by (by left).
  split; [exact Hun|].
  destruct (initializeApp_unavailable 0 0 half_draws (Home no_window) Hun)
    as (Herr & _ & Hstate & _).
  split; [exact Herr|]. rewrite Hstate. reflexivity.
Defined.

(** X29 at the first render in an empty browser, with every draw 1/2. *)
Lemma initializeApp_healthy_witness :
  healthy (host (Home fresh_browser))
  ∧ unit_interval half_draws
  ∧ isInitialized
      (appState
         (page (initializeApp 0 1700000000000 half_draws (Home fresh_browser))))
    = true
  ∧ (getTimestamp
       (host (initializeApp 0 1700000000000 half_draws (Home fresh_browser)))).1
    = Normal (succeeded (Some 1700000000000)).
Proof.
  assert (Hh : healthy (host (Home fresh_browser))) by (by repeat split).
  assert (Hrnd : unit_interval half_draws)
    by (intros k; split; [discriminate | reflexivity]).
  split; [exact Hh|]. split; [exact Hrnd|].
  destruct (initializeApp_healthy 0 1700000000000 half_draws
              (Home fresh_browser) Hh Hrnd)
    as (_ & _ & Hinit & _ & _ & _ & _ & _ & _ & _ & Hts).
  split; [exact Hinit | exact Hts].
Defined.

(** X30 from a page that shows three readings, after four taps. *)
Lemma resetApp_healthy_witness :
  healthy (host (taps 4 (showing_three fresh_browser)))
  ∧ unit_interval half_draws
  ∧ currentIndex
      (appState
         (page (resetApp 0 0 half_draws
                  (taps 4 (showing_three fresh_browser))).2)) = 0
  ∧ (getCurrentIndex
       (host (resetApp 0 0 half_draws
                (taps 4 (showing_three fresh_browser))).2)).1
    = Normal (succeeded (Some 0)).
Proof.
  assert (Hh : healthy (host (taps 4 (showing_three fresh_browser))))
    by (by repeat split).
  assert (Hrnd : unit_interval half_draws)
    by (intros k; split; [discriminate | reflexivity]).
  split; [exact Hh|]. split; [exact Hrnd|].
  destruct (resetApp_healthy 0 0 half_draws
              (taps 4 (showing_three fresh_browser)) Hh Hrnd)
    as (_ & _ & _ & Hcur & _ & _ & Hix & _).
  split; [exact Hcur | exact Hix].
Defined.
